(** * Sub-repository permissions: the decision procedure of
    [internal/authz/sub_repo_perms.go]

    The development embeds [subRepoPermsClient.Permissions] and
    [ActorPermissions] as functions in a small state monad.  The state holds
    the process-wide feature flag, the state of the rule-set store behind the
    [SubRepoPermissionsGetter] interface, and a trace of the calls made to the
    collaborators (the store and the glob package), in the order in which the
    Go code makes them. *)

From Stdlib Require Import ZArith String Ascii List Bool Lia.
From stdpp Require Import base option list strings gmap.

Import ListNotations.
Local Open Scope string_scope.
Local Open Scope list_scope.
Local Open Scope Z_scope.

(** ** Shared types *)

(** Go [error] values that the procedure produces or forwards.
    [errors_New] is [errors.New], [errors_Wrap] is [errors.Wrap] applied to a
    non-nil cause; a nil [error] is [None] of [option error]. *)
Inductive error : Type :=
| ErrUnauthenticated : error
| errors_New (msg : string) : error
| errors_Wrap (cause : error) (msg : string) : error.

(** Modelled from the spec: the [Perms] type is declared outside the file;
    the spec gives it as the enumeration {None, Read}. *)
Module Perms.
Inductive t : Type := None | Read.
End Perms.

(** [RepoContent] specifies data existing in a repo. *)
Record RepoContent : Type := mkRepoContent {
  Repo : string;
  Path : string
}.

(** Modelled from the spec: the rule set of one repo for one user
    ([SubRepoPermissions], declared outside the file): two ordered
    sequences of glob pattern strings. *)
Record SubRepoPermissions : Type := mkSubRepoPermissions {
  PathIncludes : list string;
  PathExcludes : list string
}.

(** Modelled from the spec: the actor type ([actor.Actor], declared outside
    the file).  The spec's ActorIdentity has a user id and the two answers
    [IsAuthenticated] and [IsInternal]; they are kept independent here, so
    every statement below holds for whatever relation the actor package
    maintains between them. *)
Record Actor : Type := mkActor {
  UID : Z;
  IsAuthenticated : bool;
  IsInternal : bool
}.

(** The part of [github.com/gobwas/glob] that the procedure uses:
    [glob.Compile(pattern, separators...)] and the [Match] method of the
    compiled [glob.Glob]. *)
Class GlobPackage : Type := {
  Glob : Type;
  glob_Compile : string -> list ascii -> error + Glob;
  glob_Match : Glob -> string -> bool
}.

(** ** Package [path] of the Go standard library

    [path.Clean] walks the path one element at a time: its read index always
    stands at a slash or at the first byte of an element, so the loop is
    modelled over the elements between slashes.  [out] holds the elements
    written so far (the buffer is their join with "/", after the leading
    slash of a rooted path), and [dotdot] counts the leading ".." elements
    that a later ".." must not remove (the buffer index [dotdot] of the Go
    code stands just after them). *)
Module path.

(** The elements of a path: the pieces between slashes, in order.
    [cur] is the element being read. *)
Fixpoint elements (p : string) (cur : string) : list string :=
  match p with
  | EmptyString => [cur]
  | String c rest =>
      if Ascii.eqb c "/" then cur :: elements rest ""
      else elements rest (cur ++ String c "")%string
  end.

Fixpoint cleanLoop (rooted : bool) (elems : list string)
    (out : list string) (dotdot : nat) : list string :=
  match elems with
  | [] => out
  | e :: rest =>
      if String.eqb e "" then
        (* empty path element *)
        cleanLoop rooted rest out dotdot
      else if String.eqb e "." then
        (* . element *)
        cleanLoop rooted rest out dotdot
      else if String.eqb e ".." then
        (* .. element: remove to last / *)
        if (dotdot <? length out)%nat then
          (* can backtrack *)
          cleanLoop rooted rest (removelast out) dotdot
        else if negb rooted then
          (* cannot backtrack, but not rooted, so append .. element *)
          cleanLoop rooted rest (out ++ [".."]) (Datatypes.S (length out))
        else cleanLoop rooted rest out dotdot
      else
        (* real path element *)
        cleanLoop rooted rest (out ++ [e]) dotdot
  end.

(** The buffer contents for the written elements. *)
Fixpoint joinElements (out : list string) : string :=
  match out with
  | [] => ""
  | [e] => e
  | e :: rest => (e ++ "/" ++ joinElements rest)%string
  end.

Definition Clean (p : string) : string :=
  match p with
  | EmptyString => "."
  | String c _ =>
      let rooted := Ascii.eqb c "/" in
      let out := cleanLoop rooted (elements p "") [] 0 in
      if rooted then ("/" ++ joinElements out)%string
      else match out with
           | [] => "."   (* Turn empty string into "." *)
           | _ => joinElements out
           end
  end.

(** The loop of [path.Join]: empty elements are skipped until the buffer
    is non-empty, later ones are appended after a slash. *)
Fixpoint joinLoop (elem : list string) (buf : string) : string :=
  match elem with
  | [] => buf
  | e :: rest =>
      if negb (String.eqb buf "") || negb (String.eqb e "") then
        joinLoop rest
          ((if negb (String.eqb buf "") then buf ++ "/" else buf) ++ e)%string
      else joinLoop rest buf
  end.

Definition Join (elem : list string) : string :=
  let size := fold_left (fun n e => (n + String.length e)%nat) elem 0%nat in
  if (size =? 0)%nat then "" else Clean (joinLoop elem "").

End path.

(** ** Package [github.com/gobwas/glob]

    A model of the library that the procedure calls: its lexer
    ([syntax/lexer]), its parser ([syntax/ast]) and the meaning of the parsed
    pattern.  The library compiles the syntax tree to an optimised tree of
    matchers; [Match] below gives the documented meaning of each node
    instead.  Patterns and subjects are read one byte at a time, which is
    the library's reading for ASCII text.  The statements below that rest
    on [Match] use it on "**" and on a text followed by "**" only, where
    the meaning of the nodes and the compiled matchers agree (everything,
    and a test for a prefix); the library's matchers are not claimed to
    follow [Match] on other patterns. *)
Module gobwas.

Inductive Token : Type :=
| EOF | Error (msg : string) | Text (raw : list ascii)
| Any | Super | Single | Not | Separator
| RangeOpen | RangeClose | RangeLo (r : ascii) | RangeHi (r : ascii)
| RangeBetween | TermsOpen | TermsClose.

Definition inList (r : ascii) (l : list ascii) : bool :=
  existsb (Ascii.eqb r) l.

Definition inTextBreakers : list ascii := ["?"; "*"; "["; "{"]%char.
Definition inTermsBreakers : list ascii :=
  (inTextBreakers ++ ["}"; ","]%char)%list.

(** [lexer.fetchText]: reads up to the first unescaped breaker, which is
    left unread; a backslash escapes the next character. *)
Fixpoint fetchText (breakers : list ascii) (escaped : bool)
    (data : list ascii) (s : list ascii) : list ascii * list ascii :=
  match s with
  | [] => (data, [])
  | r :: s' =>
      if negb escaped && Ascii.eqb r "\" then fetchText breakers true data s'
      else if negb escaped && inList r breakers then (data, s)
      else fetchText breakers false (data ++ [r])%list s'
  end.

Definition textToken (data : list ascii) : list Token :=
  match data with [] => [] | _ => [Text data] end.

(** The end of [lexer.fetchRange], once [wantClose] is set. *)
Definition fetchClose (s : list ascii) : string + (list Token * list ascii) :=
  match s with
  | [] => inl "unexpected end of input"
  | r :: s' =>
      if Ascii.eqb r "]" then inr ([RangeClose], s')
      else inl "expected close range character"
  end.

(** [lexer.fetchRange], after the opening bracket: an optional "!", then
    either [lo-hi] or the listed characters, then the closing bracket. *)
Definition fetchRangeBody (s : list ascii) : string + (list Token * list ascii) :=
  match s with
  | [] => inl "unexpected end of input"
  | r :: s' =>
      match s' with
      | n :: s'' =>
          if Ascii.eqb n "-" then
            match s'' with
            | [] => inl "unexpected end of input"
            | hi :: s3 =>
                match fetchClose s3 with
                | inl e => inl e
                | inr (ts, rest) =>
                    inr (([RangeLo r; RangeBetween; RangeHi hi] ++ ts)%list, rest)
                end
            end
          else
            let (data, rest) := fetchText ["]"%char] false [] s in
            match fetchClose rest with
            | inl e => inl e
            | inr (ts, rest') => inr ((textToken data ++ ts)%list, rest')
            end
      | [] =>
          let (data, rest) := fetchText ["]"%char] false [] s in
          match fetchClose rest with
          | inl e => inl e
          | inr (ts, rest') => inr ((textToken data ++ ts)%list, rest')
          end
      end
  end.

Definition fetchRange (s : list ascii) : string + (list Token * list ascii) :=
  match s with
  | [] => inl "unexpected end of input"
  | r :: s' =>
      if Ascii.eqb r "!" then
        match fetchRangeBody s' with
        | inl e => inl e
        | inr (ts, rest) => inr (Not :: ts, rest)
        end
      else fetchRangeBody s
  end.

(** [lexer.fetchItem]: the tokens of the next item, the terms level after
    it and the unread input; [None] at the end of the input. *)
Definition fetchItem (termsLevel : nat) (s : list ascii)
  : option (string + (list Token * nat * list ascii)) :=
  match s with
  | [] => None
  | r :: s' =>
      Some (
      if Ascii.eqb r "{" then inr ([TermsOpen], Datatypes.S termsLevel, s')
      else if Ascii.eqb r "," && (0 <? termsLevel)%nat then
        inr ([Separator], termsLevel, s')
      else if Ascii.eqb r "}" && (0 <? termsLevel)%nat then
        inr ([TermsClose], Nat.pred termsLevel, s')
      else if Ascii.eqb r "[" then
        match fetchRange s' with
        | inl e => inl e
        | inr (ts, rest) => inr (RangeOpen :: ts, termsLevel, rest)
        end
      else if Ascii.eqb r "?" then inr ([Single], termsLevel, s')
      else if Ascii.eqb r "*" then
        match s' with
        | n :: s'' =>
            if Ascii.eqb n "*" then inr ([Super], termsLevel, s'')
            else inr ([Any], termsLevel, s')
        | [] => inr ([Any], termsLevel, s')
        end
      else
        let breakers :=
          if (0 <? termsLevel)%nat then inTermsBreakers else inTextBreakers in
        let (data, rest) := fetchText breakers false [] s in
        inr (textToken data, termsLevel, rest))
  end.

(** The token stream that successive calls of [lexer.Next] deliver.  Once
    the lexer has an error, [Next] answers with it before any token of
    the failed item.  Every item reads at least one byte, so a fuel of
    one more than the length of the input is never used up. *)
Fixpoint tokensFrom (fuel : nat) (termsLevel : nat) (s : list ascii)
  : list Token :=
  match fuel with
  | O => [Error "lexer: out of fuel"]
  | Datatypes.S fuel' =>
      match fetchItem termsLevel s with
      | None => [EOF]
      | Some (inl e) => [Error e]
      | Some (inr (ts, lvl, rest)) => (ts ++ tokensFrom fuel' lvl rest)%list
      end
  end.

Definition tokens (source : string) : list Token :=
  let s := list_ascii_of_string source in
  tokensFrom (Datatypes.S (length s)) 0 s.

Definition isError (tok : Token) : bool :=
  match tok with Error _ => true | _ => false end.

(** The two errors of the lexer. *)
Definition lexerError (e : string) : Prop :=
  e = "unexpected end of input" \/ e = "expected close range character".

#[local] Set Warnings "-register-all".

(** The syntax tree of [syntax/ast].  A pattern node is the list of its
    children; [KindAnyOf] holds the alternatives of a braced group. *)
Inductive Node : Type :=
| KindText (text : list ascii)
| KindAny
| KindSuper
| KindSingle
| KindList (chars : list ascii) (not : bool)
| KindRange (lo hi : ascii) (not : bool)
| KindAnyOf (patterns : list (list Node)).

(** What [parserRange] has collected. *)
Record RangeAcc : Type := mkRangeAcc {
  accNot : bool;
  accLo : ascii;
  accHi : ascii;
  accChars : list ascii
}.

(** The parser function in charge: [parserMain] or [parserRange]. *)
Inductive ParseFn : Type :=
| ParserMain
| ParserRange (acc : RangeAcc).

(** One open braced group: the pattern that holds it and the
    alternatives that are complete. *)
Definition Frame : Type := (list Node * list (list Node))%type.

Fixpoint closeFrames (tree : list Node) (open : list Frame) : list Node :=
  match open with
  | [] => tree
  | (parent, alts) :: open' =>
      closeFrames (parent ++ [KindAnyOf (alts ++ [tree])])%list open'
  end.

Definition zero : ascii := Ascii.zero.

(** [ast.Parse]: [tree] is the pattern node being filled and [open] the
    braced groups around it, innermost first.  The lexer sends
    [Separator] and [TermsClose] only inside a group. *)
Fixpoint parse (fn : ParseFn) (tree : list Node) (open : list Frame)
    (toks : list Token) : string + list Node :=
  match toks with
  | [] => inl "unexpected end"
  | tok :: rest =>
      match fn with
      | ParserMain =>
          match tok with
          | EOF => inr (closeFrames tree open)
          | Error msg => inl msg
          | Text raw => parse ParserMain (tree ++ [KindText raw])%list open rest
          | Any => parse ParserMain (tree ++ [KindAny])%list open rest
          | Super => parse ParserMain (tree ++ [KindSuper])%list open rest
          | Single => parse ParserMain (tree ++ [KindSingle])%list open rest
          | RangeOpen =>
              parse (ParserRange (mkRangeAcc false zero zero [])) tree open rest
          | TermsOpen => parse ParserMain [] ((tree, []) :: open) rest
          | Separator =>
              match open with
              | (parent, alts) :: open' =>
                  parse ParserMain [] ((parent, alts ++ [tree])%list :: open') rest
              | [] => inl "unexpected token"
              end
          | TermsClose =>
              match open with
              | (parent, alts) :: open' =>
                  parse ParserMain
                    (parent ++ [KindAnyOf (alts ++ [tree])])%list open' rest
              | [] => inl "unexpected token"
              end
          | _ => inl "unexpected token"
          end
      | ParserRange acc =>
          match tok with
          | EOF => inl "unexpected end"
          | Error msg => inl msg
          | Not =>
              parse (ParserRange
                       (mkRangeAcc true (accLo acc) (accHi acc) (accChars acc)))
                    tree open rest
          | RangeLo r =>
              parse (ParserRange
                       (mkRangeAcc (accNot acc) r (accHi acc) (accChars acc)))
                    tree open rest
          | RangeHi r =>
              if (nat_of_ascii r <? nat_of_ascii (accLo acc))%nat then
                inl ("hi character '" ++ String r "'"
                     ++ " should be greater than lo '"
                     ++ String (accLo acc) "'")%string
              else
                parse (ParserRange
                         (mkRangeAcc (accNot acc) (accLo acc) r (accChars acc)))
                      tree open rest
          | Text raw =>
              parse (ParserRange
                       (mkRangeAcc (accNot acc) (accLo acc) (accHi acc) raw))
                    tree open rest
          | RangeClose =>
              let isRange :=
                negb (Ascii.eqb (accLo acc) zero)
                && negb (Ascii.eqb (accHi acc) zero) in
              let isChars :=
                match accChars acc with [] => false | _ => true end in
              if Bool.eqb isChars isRange then inl "could not parse range"
              else if isRange then
                parse ParserMain
                  (tree ++ [KindRange (accLo acc) (accHi acc) (accNot acc)])%list
                  open rest
              else
                parse ParserMain
                  (tree ++ [KindList (accChars acc) (accNot acc)])%list
                  open rest
          | _ => parse (ParserRange acc) tree open rest
          end
      end
  end.

(** The runs that "*" and "**" may take: [k] is tried on the rest after
    every run of bytes accepted by [ok], the shortest first. *)
Fixpoint afterRun (ok : ascii -> bool) (k : list ascii -> bool)
    (s : list ascii) : bool :=
  k s || match s with
         | [] => false
         | c :: s' => ok c && afterRun ok k s'
         end.

Fixpoint stripPrefix (t s : list ascii) : option (list ascii) :=
  match t, s with
  | [], _ => Some s
  | a :: t', b :: s' => if Ascii.eqb a b then stripPrefix t' s' else None
  | _ :: _, [] => None
  end.

Definition oneChar (ok : ascii -> bool) (k : list ascii -> bool)
    (s : list ascii) : bool :=
  match s with
  | [] => false
  | c :: s' => ok c && k s'
  end.

(** The meaning of a node: [matchNode seps n k s] holds when [n] matches
    a prefix of [s] whose rest satisfies [k]. *)
Fixpoint matchNode (seps : list ascii) (n : Node) (k : list ascii -> bool)
    (s : list ascii) {struct n} : bool :=
  match n with
  | KindText t =>
      match stripPrefix t s with Some rest => k rest | None => false end
  | KindAny => afterRun (fun c => negb (inList c seps)) k s
  | KindSuper => afterRun (fun _ => true) k s
  | KindSingle => oneChar (fun c => negb (inList c seps)) k s
  | KindList chars not => oneChar (fun c => Bool.eqb (inList c chars) (negb not)) k s
  | KindRange lo hi not =>
      oneChar (fun c =>
                 Bool.eqb ((nat_of_ascii lo <=? nat_of_ascii c)%nat
                           && (nat_of_ascii c <=? nat_of_ascii hi)%nat)
                          (negb not)) k s
  | KindAnyOf patterns =>
      (fix anyOf (ps : list (list Node)) : bool :=
         match ps with
         | [] => false
         | p :: ps' =>
             (fix inOrder (ns : list Node) (k' : list ascii -> bool)
                : list ascii -> bool :=
                match ns with
                | [] => k'
                | n' :: ns' => matchNode seps n' (inOrder ns' k')
                end) p k s
             || anyOf ps'
         end) patterns
  end.

Fixpoint matchPattern (seps : list ascii) (ns : list Node)
    (k : list ascii -> bool) : list ascii -> bool :=
  match ns with
  | [] => k
  | n :: ns' => matchNode seps n (matchPattern seps ns' k)
  end.

Definition atEnd (s : list ascii) : bool :=
  match s with [] => true | _ => false end.

(** A compiled [glob.Glob]: the pattern and the separators it was
    compiled with. *)
Record Glob : Type := mkGlob {
  tree : list Node;
  separators : list ascii
}.

(** [glob.Compile]. *)
Definition Compile (pattern : string) (seps : list ascii) : error + Glob :=
  match parse ParserMain [] [] (tokens pattern) with
  | inl msg => inl (errors_New msg)
  | inr t => inr (mkGlob t seps)
  end.

(** [Glob.Match]: the whole subject has to be matched. *)
Definition Match (g : Glob) (subject : string) : bool :=
  matchPattern (separators g) (tree g) atEnd (list_ascii_of_string subject).

End gobwas.

Section Authz.

Context {GP : GlobPackage}.
(** The state of whatever implements [SubRepoPermissionsGetter]. *)
Context {S : Type}.

(** Calls to collaborators, as recorded in the trace. *)
Inductive Event : Type :=
| EvRepoSupported (repo : string)
| EvGetByUser (userID : Z)
| EvCompile (rule : string)
| EvMatch (g : Glob) (subject : string).

(** What a call can read and change.  The flag is written by the
    configuration watcher alone, which is no part of a call: within a call
    it keeps its value. *)
Record World : Type := mkWorld {
  subRepoPermsEnabledFlag : Z;
  storeState : S;
  trace : list Event
}.

Definition M (A : Type) : Type := World -> A * World.

Definition ret {A} (a : A) : M A := fun w => (a, w).

Definition bind {A B} (m : M A) (k : A -> M B) : M B :=
  fun w => let (a, w') := m w in k a w'.

(** Appends a call to the trace. *)
Definition log (e : Event) : M unit :=
  fun w => (tt, mkWorld (subRepoPermsEnabledFlag w) (storeState w) (trace w ++ [e])).

(** Runs a method of the store on the store's state. *)
Definition liftStore {A} (f : S -> A * S) : M A :=
  fun w => let (a, st) := f (storeState w) in
           (a, mkWorld (subRepoPermsEnabledFlag w) st (trace w)).

Notation "x <- m ;; k" := (bind m (fun x => k))
  (at level 100, m at next level, right associativity).

(** [subRepoPermsEnabled]: an atomic load of the flag, compared with 1. *)
Definition subRepoPermsEnabled : M bool :=
  fun w => (subRepoPermsEnabledFlag w =? 1, w).

(** [SubRepoPermissionsGetter] allows getting sub repository permissions.
    Each method may read and change the store's state. *)
Record SubRepoPermissionsGetter : Type := mkGetter {
  GetByUser : Z -> S -> (gmap string SubRepoPermissions * option error) * S;
  RepoSupported : string -> S -> (bool * option error) * S
}.

(** [subRepoPermsClient]; a nil [permissionsGetter] is [None]. *)
Record subRepoPermsClient : Type := mkClient {
  permissionsGetter : option SubRepoPermissionsGetter
}.

Definition NewSubRepoPermsClient (g : option SubRepoPermissionsGetter)
  : subRepoPermsClient := mkClient g.

Definition callRepoSupported (g : SubRepoPermissionsGetter) (repo : string)
  : M (bool * option error) :=
  _ <- log (EvRepoSupported repo) ;; liftStore (RepoSupported g repo).

Definition callGetByUser (g : SubRepoPermissionsGetter) (userID : Z)
  : M (gmap string SubRepoPermissions * option error) :=
  _ <- log (EvGetByUser userID) ;; liftStore (GetByUser g userID).

Definition callCompile (rule : string) : M (error + Glob) :=
  _ <- log (EvCompile rule) ;; ret (glob_Compile rule ["/"%char]).

Definition callMatch (g : Glob) (subject : string) : M bool :=
  _ <- log (EvMatch g subject) ;; ret (glob_Match g subject).

(** The two compile loops: every rule is compiled in order and appended
    to the matchers; the first failure leaves the loop with its error. *)
Fixpoint buildMatchers (rules : list string) (matchers : list Glob)
  : M (error + list Glob) :=
  match rules with
  | [] => ret (inr matchers)
  | rule :: rest =>
      r <- callCompile rule ;;
      match r with
      | inl err => ret (inl err)
      | inr g => buildMatchers rest (matchers ++ [g])
      end
  end.

(** The two match loops: matchers are tried in order up to the first one
    that matches. *)
Fixpoint anyMatch (matchers : list Glob) (toMatch : string) : M bool :=
  match matchers with
  | [] => ret false
  | rule :: rest =>
      b <- callMatch rule toMatch ;;
      if b then ret true else anyMatch rest toMatch
  end.

(** [subRepoPermsClient.Permissions]: the level of access the user has for
    the requested content, as the pair (Perms, error) that the Go method
    returns. *)
Definition Permissions (s : subRepoPermsClient) (userID : Z)
    (content : RepoContent) : M (Perms.t * option error) :=
  enabled <- subRepoPermsEnabled ;;
  if negb enabled then ret (Perms.Read, None)
  else if userID =? 0 then ret (Perms.None, Some ErrUnauthenticated)
  else match permissionsGetter s with
  | None => ret (Perms.None, Some (errors_New "PermissionsGetter is nil"))
  | Some getter =>
    r <- callRepoSupported getter (Repo content) ;;
    let '(supported, err) := r in
    match err with
    | Some e =>
        ret (Perms.None,
             Some (errors_Wrap e "checking for sub-repo permissions support"))
    | None =>
      if negb supported then ret (Perms.Read, None)
      else
        r <- callGetByUser getter userID ;;
        let '(srp, err) := r in
        match err with
        | Some e => ret (Perms.None, Some (errors_Wrap e "getting permissions"))
        | None =>
          match srp !! Repo content with
          | None => ret (Perms.None, None)
          | Some repoRules =>
            inc <- buildMatchers (PathIncludes repoRules) [] ;;
            match inc with
            | inl e =>
                ret (Perms.None, Some (errors_Wrap e "building include matcher"))
            | inr includeMatchers =>
              exc <- buildMatchers (PathExcludes repoRules) [] ;;
              match exc with
              | inl e =>
                  ret (Perms.None,
                       Some (errors_Wrap e "building exclude matcher"))
              | inr excludeMatchers =>
                let toMatch := path.Join [Repo content; Path content] in
                excluded <- anyMatch excludeMatchers toMatch ;;
                if excluded then ret (Perms.None, None)
                else
                  included <- anyMatch includeMatchers toMatch ;;
                  if included then ret (Perms.Read, None)
                  else ret (Perms.None, None)
              end
            end
          end
        end
    end
  end.

(** [SubRepoPermissionChecker] is the interface exposed by the client; it is
    what [ActorPermissions] receives, so that consumers can mock it. *)
Class SubRepoPermissionChecker (T : Type) : Type := {
  checkPermissions : T -> Z -> RepoContent -> M (Perms.t * option error)
}.

#[export] Instance subRepoPermsClient_checker
  : SubRepoPermissionChecker subRepoPermsClient :=
  {| checkPermissions := Permissions |}.

(** [ActorPermissions]: the level of access the given actor has for the
    requested content. *)
Definition ActorPermissions {T} `{SubRepoPermissionChecker T}
    (s : T) (a : Actor) (content : RepoContent)
  : M (Perms.t * option error) :=
  enabled <- subRepoPermsEnabled ;;
  if negb enabled then ret (Perms.Read, None)
  else if negb (IsAuthenticated a) then ret (Perms.None, Some ErrUnauthenticated)
  else if IsInternal a then ret (Perms.Read, None)
  else checkPermissions s (UID a) content.

(** [CurrentUserPermissions]: [ctxActor] is the actor that
    [actor.FromContext] finds in the context. *)
Definition CurrentUserPermissions {T} `{SubRepoPermissionChecker T}
    (ctxActor : Actor) (s : T) (content : RepoContent)
  : M (Perms.t * option error) :=
  ActorPermissions s ctxActor content.

End Authz.

(** The model of the glob library as the package the procedure runs with. *)
#[export] Instance gobwasPackage : GlobPackage := {|
  Glob := gobwas.Glob;
  glob_Compile := gobwas.Compile;
  glob_Match := gobwas.Match
|}.

(** ** What the loops compute and whom they call *)

Section Loops.

Context {GP : GlobPackage} {S : Type}.

(** The world after the calls [evs] have been made. *)
Definition after (w : @World GP S) (st : S) (evs : list Event) : World :=
  mkWorld (subRepoPermsEnabledFlag w) st (trace w ++ evs).

(** The outcome of a compile loop. *)
Fixpoint compileAll (rules : list string) (matchers : list Glob)
  : error + list Glob :=
  match rules with
  | [] => inr matchers
  | rule :: rest =>
      match glob_Compile rule ["/"%char] with
      | inl e => inl e
      | inr g => compileAll rest (matchers ++ [g])
      end
  end.

(** The rules a compile loop hands to [glob.Compile]: all of them up to
    the first that fails. *)
Fixpoint compiledRules (rules : list string) : list string :=
  match rules with
  | [] => []
  | rule :: rest =>
      rule :: match glob_Compile rule ["/"%char] with
              | inl _ => []
              | inr _ => compiledRules rest
              end
  end.

(** The matchers a match loop asks: all of them up to the first match. *)
Fixpoint triedMatchers (matchers : list Glob) (subject : string) : list Glob :=
  match matchers with
  | [] => []
  | g :: rest =>
      g :: (if glob_Match g subject then [] else triedMatchers rest subject)
  end.

Definition anyMatches (matchers : list Glob) (subject : string) : bool :=
  existsb (fun g => glob_Match g subject) matchers.

(** The match subject of a content: rules are created including the
    repo name. *)
Definition subject (content : RepoContent) : string :=
  path.Join [Repo content; Path content].

(** The rule stage of [Permissions] (from the compile loops to the final
    return) read as a function of the repo's rules and the content: its
    result and the calls it makes to the glob package, in order. *)
Definition ruleStage (repoRules : SubRepoPermissions) (content : RepoContent)
  : (Perms.t * option error) * list (@Event GP) :=
  let compiledIncludes := map EvCompile (compiledRules (PathIncludes repoRules)) in
  let compiledExcludes := map EvCompile (compiledRules (PathExcludes repoRules)) in
  let asked ms := map (fun g => EvMatch g (subject content))
                      (triedMatchers ms (subject content)) in
  match compileAll (PathIncludes repoRules) [] with
  | inl e =>
      ((Perms.None, Some (errors_Wrap e "building include matcher")),
       compiledIncludes)
  | inr includeMatchers =>
      match compileAll (PathExcludes repoRules) [] with
      | inl e =>
          ((Perms.None, Some (errors_Wrap e "building exclude matcher")),
           compiledIncludes ++ compiledExcludes)
      | inr excludeMatchers =>
          if anyMatches excludeMatchers (subject content) then
            ((Perms.None, None),
             compiledIncludes ++ compiledExcludes ++ asked excludeMatchers)
          else if anyMatches includeMatchers (subject content) then
            ((Perms.Read, None),
             compiledIncludes ++ compiledExcludes
               ++ asked excludeMatchers ++ asked includeMatchers)
          else
            ((Perms.None, None),
             compiledIncludes ++ compiledExcludes
               ++ asked excludeMatchers ++ asked includeMatchers)
      end
  end.

(** The call reaches the rule stage with [repoRules]: the flag is
    enabled, the user is a real one, the repo is supported and the store
    has rules for it; [st] is the store's state after its two calls. *)
Definition reachesRules (w : @World GP S) (getter : @SubRepoPermissionsGetter S)
    (userID : Z) (content : RepoContent)
    (repoRules : SubRepoPermissions) (st : S) : Prop :=
  subRepoPermsEnabledFlag w = 1
  /\ userID <> 0
  /\ exists st1 srp,
       RepoSupported getter (Repo content) (storeState w) = ((true, None), st1)
       /\ GetByUser getter userID st1 = ((srp, None), st)
       /\ srp !! Repo content = Some repoRules.

(** The two grant paths inside [Permissions] once the flag is enabled. *)
Definition grantedAsUnsupported (w : @World GP S) (s : @subRepoPermsClient S)
    (userID : Z) (content : RepoContent) : Prop :=
  subRepoPermsEnabledFlag w = 1
  /\ userID <> 0
  /\ exists getter st1,
       permissionsGetter s = Some getter
       /\ RepoSupported getter (Repo content) (storeState w)
          = ((false, None), st1).

Definition grantedByInclude (w : @World GP S) (s : @subRepoPermsClient S)
    (userID : Z) (content : RepoContent) : Prop :=
  exists getter repoRules st includeMatchers excludeMatchers,
    permissionsGetter s = Some getter
    /\ reachesRules w getter userID content repoRules st
    /\ compileAll (PathIncludes repoRules) [] = inr includeMatchers
    /\ compileAll (PathExcludes repoRules) [] = inr excludeMatchers
    /\ anyMatches excludeMatchers (subject content) = false
    /\ anyMatches includeMatchers (subject content) = true.

Definition isMatchEvent (e : @Event GP) : bool :=
  match e with EvMatch _ _ => true | _ => false end.

Definition isStoreEvent (e : @Event GP) : bool :=
  match e with EvRepoSupported _ | EvGetByUser _ => true | _ => false end.

End Loops.

(** ** Clean paths *)




(** ** Example collaborators *)

(** A store without state of its own: it answers [supported] for every
    repo and returns the rule sets [srp] for every user. *)
Definition fixedGetter (supported : bool) (srp : gmap string SubRepoPermissions)
  : @SubRepoPermissionsGetter unit :=
mkGetter (fun _ st => ((srp, None), st)) (fun _ st => ((supported, None), st)).

(** The world before a call: the flag's value, the store above and an
    empty trace. *)
Definition startWorld (flag : Z) : @World gobwasPackage unit :=
mkWorld flag tt [].

(** Rule sets for repo "r": one whose exclude is rooted at the repo name,
    one whose exclude is not, and one with a pattern that does not compile
    (an unclosed character class). *)
Definition rootedRules : SubRepoPermissions :=
mkSubRepoPermissions ["**"] ["r/secret/**"].

Definition unrootedRules : SubRepoPermissions :=
mkSubRepoPermissions ["**"] ["secret/**"].

Definition brokenRules : SubRepoPermissions :=
mkSubRepoPermissions ["**"; "["] ["r/secret/**"].

Definition storeWith (rules : SubRepoPermissions) : @SubRepoPermissionsGetter unit :=
fixedGetter true {[ "r" := rules ]}.

Definition secretFile : RepoContent := mkRepoContent "r" "secret/file.txt".
Definition publicFile : RepoContent := mkRepoContent "r" "public/file.txt".

(** The compiled forms of "**" and "r/secret/**". *)
Definition everything : gobwas.Glob :=
gobwas.mkGlob [gobwas.KindSuper] ["/"%char].

Definition underSecret : gobwas.Glob :=
gobwas.mkGlob
  [gobwas.KindText (list_ascii_of_string "r/secret/"); gobwas.KindSuper]
  ["/"%char].

(** An internal actor without a user identity, and one with. *)
Definition internalAnonymous : Actor := mkActor 0 false true.
Definition internalUser : Actor := mkActor 5 true true.

(** ** The configuration watcher *)

(** The site configuration as the watcher reads it.  [conf.Get] returns it;
    the callback looks at [ExperimentalFeatures], a pointer that is nil
    when the section is absent, and at its [EnableSubRepoPermissions].  The
    types are declared outside the file. *)
Record schema_ExperimentalFeatures : Type := mkExperimentalFeatures {
  EnableSubRepoPermissions : bool
}.

Record conf_Unified : Type := mkUnified {
  ExperimentalFeatures : option schema_ExperimentalFeatures
}.

Section Watcher.

Context {GP : GlobPackage} {S : Type}.

(** [atomic.StoreInt32(&subRepoPermsEnabledFlag, v)]. *)
Definition atomic_StoreInt32 (v : Z) : @M GP S unit :=
  fun w => (tt, mkWorld v (storeState w) (trace w)).

(** The function that [init] hands to [conf.Watch], run on the
    configuration [c] that [conf.Get] returns. *)
Definition watchCallback (c : conf_Unified) : @M GP S unit :=
  if match ExperimentalFeatures c with
     | Some ef => EnableSubRepoPermissions ef
     | None => false
     end
  then atomic_StoreInt32 1
  else atomic_StoreInt32 0.

(** [conf.Watch] runs the callback once for every configuration it sees,
    in order. *)
Fixpoint watchAll (configs : list conf_Unified) : @M GP S unit :=
  match configs with
  | [] => ret tt
  | c :: rest => bind (watchCallback c) (fun _ => watchAll rest)
  end.

(** The world at process start: the flag has the zero value of [int32]. *)
Definition initialWorld (st : S) : @World GP S := mkWorld 0 st [].

(** Whether a configuration switches the feature on. *)
Definition enables (c : conf_Unified) : bool :=
  match ExperimentalFeatures c with
  | Some ef => EnableSubRepoPermissions ef
  | None => false
  end.

End Watcher.

(** ** The decision in terms of the stored patterns *)

Section Decision.

Context {GP : GlobPackage}.

Definition compiles (pattern : string) : bool :=
  match glob_Compile pattern ["/"%char] with
  | inr _ => true
  | inl _ => false
  end.

(** The pattern compiles and its matcher accepts the subject. *)
Definition patternMatches (subj : string) (pattern : string) : bool :=
  match glob_Compile pattern ["/"%char] with
  | inr g => glob_Match g subj
  | inl _ => false
  end.

(** Read when every pattern compiles, no exclude matches the subject and
    some include does; None otherwise. *)
Definition ruleDecision (repoRules : SubRepoPermissions) (content : RepoContent)
  : Perms.t :=
  if forallb compiles (PathIncludes repoRules ++ PathExcludes repoRules)
     && negb (existsb (patternMatches (subject content)) (PathExcludes repoRules))
     && existsb (patternMatches (subject content)) (PathIncludes repoRules)
  then Perms.Read else Perms.None.

End Decision.

(** ** Package [squirrel]: grouping of test annotations *)

Module squirrel.

(** [types.RepoCommitPathPoint], with the fields the test file fills in. *)
Record RepoCommitPathPoint : Type := mkRepoCommitPathPoint {
  pointRepo : string;
  pointCommit : string;
  pointPath : string;
  pointRow : Z;
  pointColumn : Z
}.

(** The [annotation] struct, declared outside the file; the file reads its
    fields [repoCommitPathPoint], [symbol] and [tags]. *)
Record annotation : Type := mkAnnotation {
  repoCommitPathPoint : RepoCommitPathPoint;
  symbol : string;
  tags : list string
}.

(** [grouped[sym][tag]] as Go reads it: a missing key of either map gives
    the nil slice. *)
Definition at_ (grouped : gmap string (gmap string (list annotation)))
    (sym tag : string) : list annotation :=
  default [] (default ∅ (grouped !! sym) !! tag).

(** The body of the inner loop:
    [grouped[a.symbol][tag] = append(grouped[a.symbol][tag], a)]. *)
Definition appendTo (a : annotation)
    (grouped : gmap string (gmap string (list annotation))) (tag : string)
  : gmap string (gmap string (list annotation)) :=
  <[symbol a := <[tag := at_ grouped (symbol a) tag ++ [a]]>
                   (default ∅ (grouped !! symbol a))]> grouped.

(** The body of the outer loop. *)
Definition groupOne (grouped : gmap string (gmap string (list annotation)))
    (a : annotation) : gmap string (gmap string (list annotation)) :=
  let grouped' :=
    match grouped !! symbol a with
    | Some _ => grouped
    | None => <[symbol a := ∅]> grouped
    end in
  fold_left (appendTo a) (tags a) grouped'.

Definition groupBySymbolAndTag (annotations : list annotation)
  : gmap string (gmap string (list annotation)) :=
  fold_left groupOne annotations ∅.

(** The annotations with symbol [sym], in order, each once for every time
    [tag] stands in its tags. *)
Definition tagged (annotations : list annotation) (sym tag : string)
  : list annotation :=
  flat_map (fun a => if String.eqb (symbol a) sym
                     then repeat a (count_occ string_dec (tags a) tag)
                     else [])
           annotations.

(** No entry of the grouping is an empty list. *)
Definition noEmpty (grouped : gmap string (gmap string (list annotation)))
  : Prop :=
  forall sym m tag, grouped !! sym = Some m -> m !! tag <> Some [].

End squirrel.

(** ** Plain text in a pattern *)




(** ** More example collaborators *)

(** Stores whose first or second method fails. *)
Definition supportFails : @SubRepoPermissionsGetter unit :=
mkGetter (fun _ st => ((∅, None), st))
         (fun _ st => ((true, Some (errors_New "store is down")), st)).

Definition rulesFail : @SubRepoPermissionsGetter unit :=
mkGetter (fun _ st => ((∅, Some (errors_New "store is down")), st))
         (fun _ st => ((true, None), st)).

(** Rule sets for repo "r": the same patterns as [rootedRules] in another
    order and with a repetition, the allow-all rule alone, one tree alone,
    and an exclude that does not compile. *)
Definition shuffledRules : SubRepoPermissions :=
mkSubRepoPermissions ["**"; "**"] ["r/secret/**"; "r/secret/**"].

Definition allowAll : SubRepoPermissions :=
mkSubRepoPermissions ["**"] [].

Definition onlyDocs : SubRepoPermissions :=
mkSubRepoPermissions ["r/docs/**"] [].

Definition brokenExclude : SubRepoPermissions :=
mkSubRepoPermissions ["**"] ["["; "r/secret/**"].

(** The compiled form of "r/docs/**". *)
Definition underDocs : gobwas.Glob :=
gobwas.mkGlob
  [gobwas.KindText (list_ascii_of_string "r/docs/"); gobwas.KindSuper]
  ["/"%char].

(** A regular user. *)
Definition regularUser : Actor := mkActor 7 true false.

(** ** Properties *)

Section CleanPaths.







End CleanPaths.

Section Lexer.

Import gobwas.

Lemma fetchText_length s : forall breakers escaped data,
  (length (snd (fetchText breakers escaped data s)) <= length s)%nat.
Proof.
  induction s as [|r s IH]; intros breakers escaped data; simpl; [lia|].
  destruct (negb escaped && Ascii.eqb r "\").
  { specialize (IH breakers true data). lia. }
  destruct (negb escaped && inList r breakers); simpl; [lia|].
  specialize (IH breakers false (data ++ [r])). lia.
Qed.

Lemma textToken_no_error data : existsb isError (textToken data) = false.
Proof. by destruct data. Qed.

Lemma fetchClose_spec s ts rest :
  fetchClose s = inr (ts, rest) ->
  (length rest <= length s)%nat /\ existsb isError ts = false.
Proof.
  destruct s as [|r s]; simpl; [done|].
  destruct (Ascii.eqb r "]"); [|done].
  intros [= <- <-]. split; [lia|done].
Qed.

Lemma fetchListed_spec s ts rest :
  (let (data, rest0) := fetchText ["]"%char] false [] s in
   match fetchClose rest0 with
   | inl e => inl e
   | inr (ts0, rest') => inr (textToken data ++ ts0, rest')
   end) = inr (ts, rest) ->
  (length rest <= length s)%nat /\ existsb isError ts = false.
Proof.
  pose proof (fetchText_length s ["]"%char] false []) as Hlen.
  destruct (fetchText ["]"%char] false [] s) as [data rest0]. simpl in Hlen.
  destruct (fetchClose rest0) as [e|[ts0 rest']] eqn:Hc; [done|].
  intros [= <- <-]. apply fetchClose_spec in Hc as [Hl Hn].
  split; [lia|]. by rewrite existsb_app, textToken_no_error, Hn.
Qed.

Lemma fetchRangeBody_spec s ts rest :
  fetchRangeBody s = inr (ts, rest) ->
  (length rest <= length s)%nat /\ existsb isError ts = false.
Proof.
  destruct s as [|r [|n s]]; [done| |].
  - apply fetchListed_spec.
  - unfold fetchRangeBody. destruct (Ascii.eqb n "-").
    + destruct s as [|hi s3]; [done|].
      destruct (fetchClose s3) as [e|[ts0 rest']] eqn:Hc; [done|].
      intros [= <- <-]. apply fetchClose_spec in Hc as [Hl Hn].
      split; [simpl; lia|]. simpl. exact Hn.
    + apply fetchListed_spec.
Qed.

Lemma fetchRange_spec s ts rest :
  fetchRange s = inr (ts, rest) ->
  (length rest <= length s)%nat /\ existsb isError ts = false.
Proof.
  destruct s as [|r s]; [done|]. unfold fetchRange.
  destruct (Ascii.eqb r "!").
  - destruct (fetchRangeBody s) as [e|[ts0 rest']] eqn:Hb; [done|].
    intros [= <- <-]. apply fetchRangeBody_spec in Hb as [Hl Hn].
    split; [simpl; lia|done].
  - apply fetchRangeBody_spec.
Qed.

Lemma fetchClose_error s e : fetchClose s = inl e -> lexerError e.
Proof.
  destruct s as [|r s]; simpl; [intros [= <-]; by left|].
  destruct (Ascii.eqb r "]"); [done|]. intros [= <-]. by right.
Qed.

Lemma fetchListed_error s e :
  (let (data, rest0) := fetchText ["]"%char] false [] s in
   match fetchClose rest0 with
   | inl e => inl e
   | inr (ts0, rest') => inr (textToken data ++ ts0, rest')
   end) = @inl string (list Token * list ascii) e ->
  lexerError e.
Proof.
  destruct (fetchText ["]"%char] false [] s) as [data rest0].
  destruct (fetchClose rest0) as [e'|[ts0 rest']] eqn:Hc; [|done].
  intros [= <-]. by apply fetchClose_error in Hc.
Qed.

Lemma fetchRangeBody_error s e : fetchRangeBody s = inl e -> lexerError e.
Proof.
  destruct s as [|r [|n s]]; [intros [= <-]; by left| |].
  - apply fetchListed_error.
  - unfold fetchRangeBody. destruct (Ascii.eqb n "-").
    + destruct s as [|hi s3]; [intros [= <-]; by left|].
      destruct (fetchClose s3) as [e'|[ts0 rest']] eqn:Hc; [|done].
      intros [= <-]. by apply fetchClose_error in Hc.
    + apply fetchListed_error.
Qed.

Lemma fetchRange_error s e : fetchRange s = inl e -> lexerError e.
Proof.
  destruct s as [|r s]; [intros [= <-]; by left|]. unfold fetchRange.
  destruct (Ascii.eqb r "!"); [|apply fetchRangeBody_error].
  destruct (fetchRangeBody s) as [e'|[ts0 rest']] eqn:Hb; [|done].
  intros [= <-]. by apply fetchRangeBody_error in Hb.
Qed.

Lemma fetchItem_error termsLevel s e :
  fetchItem termsLevel s = Some (inl e) -> lexerError e.
Proof.
  destruct s as [|r s]; [done|]. unfold fetchItem.
  destruct (Ascii.eqb r "{"); [done|].
  destruct (Ascii.eqb r "," && (0 <? termsLevel)%nat); [done|].
  destruct (Ascii.eqb r "}" && (0 <? termsLevel)%nat); [done|].
  destruct (Ascii.eqb r "[").
  { destruct (fetchRange s) as [e'|[ts0 rest']] eqn:Hr; [|done].
    intros [= <-]. by apply fetchRange_error in Hr. }
  destruct (Ascii.eqb r "?"); [done|].
  destruct (Ascii.eqb r "*").
  { destruct s as [|n s]; [done|]. by destruct (Ascii.eqb n "*"). }
  by destruct (fetchText _ false [] (r :: s)).
Qed.

(** Every item takes at least one byte of the input, and the lexer's error
    is never among the tokens of an item. *)
Lemma fetchItem_spec termsLevel s ts lvl rest :
  fetchItem termsLevel s = Some (inr (ts, lvl, rest)) ->
  (length rest < length s)%nat /\ existsb isError ts = false.
Proof.
  destruct s as [|r s]; [done|]. unfold fetchItem.
  destruct (Ascii.eqb r "{") eqn:E1.
  { intros [= <- <- <-]. split; [simpl; lia|done]. }
  destruct (Ascii.eqb r "," && (0 <? termsLevel)%nat) eqn:E2.
  { intros [= <- <- <-]. split; [simpl; lia|done]. }
  destruct (Ascii.eqb r "}" && (0 <? termsLevel)%nat) eqn:E3.
  { intros [= <- <- <-]. split; [simpl; lia|done]. }
  destruct (Ascii.eqb r "[") eqn:E4.
  { destruct (fetchRange s) as [e|[ts0 rest']] eqn:Hr; [done|].
    intros [= <- <- <-]. apply fetchRange_spec in Hr as [Hl Hn].
    split; [simpl; lia|done]. }
  destruct (Ascii.eqb r "?") eqn:E5.
  { intros [= <- <- <-]. split; [simpl; lia|done]. }
  destruct (Ascii.eqb r "*") eqn:E6.
  { destruct s as [|n s].
    - intros [= <- <- <-]. split; [simpl; lia|done].
    - destruct (Ascii.eqb n "*"); intros [= <- <- <-];
        (split; [simpl; lia|done]). }
  set (breakers := if (0 <? termsLevel)%nat then inTermsBreakers
                   else inTextBreakers).
  assert (inList r breakers = false) as Hnb.
  { subst breakers. destruct (0 <? termsLevel)%nat;
      unfold inTermsBreakers, inTextBreakers, inList; simpl;
      rewrite ?andb_true_r in *; by rewrite ?E1, ?E2, ?E3, ?E4, ?E5, ?E6. }
  simpl fetchText. rewrite Hnb.
  destruct (Ascii.eqb r "\"); simpl.
  - pose proof (fetchText_length s breakers true []) as Hlen.
    destruct (fetchText breakers true [] s) as [data rest0].
    intros [= <- <- <-]. simpl in Hlen. split; [lia|].
    apply textToken_no_error.
  - pose proof (fetchText_length s breakers false [r]) as Hlen.
    destruct (fetchText breakers false [r] s) as [data rest0].
    intros [= <- <- <-]. simpl in Hlen. split; [lia|].
    apply textToken_no_error.
Qed.

(** The fuel of [tokens] is never used up. *)
Lemma tokensFrom_fuel fuel : forall termsLevel s,
  (length s < fuel)%nat ->
  ~ In (Error "lexer: out of fuel") (tokensFrom fuel termsLevel s).
Proof.
  induction fuel as [|fuel IH]; intros lvl s Hlen; [lia|]. simpl.
  destruct (fetchItem lvl s) as [[e|[[ts lvl'] rest]]|] eqn:Hi.
  - apply fetchItem_error in Hi. intros [[= ->]|[]]. by destruct Hi.
  - apply fetchItem_spec in Hi as [Hl Hn].
    intros [Hin|Hin]%in_app_or.
    + assert (existsb isError ts = true); [|congruence].
      apply existsb_exists. by exists (Error "lexer: out of fuel").
    + apply (IH lvl' rest); [lia|done].
  - intros [?|[]]. done.
Qed.

Lemma tokens_fuel source :
  ~ In (Error "lexer: out of fuel") (tokens source).
Proof. apply tokensFrom_fuel. lia. Qed.

End Lexer.

Section Properties.

Context {GP : GlobPackage} {S : Type}.

Implicit Types (w : @World GP S) (s : @subRepoPermsClient S)
  (getter : @SubRepoPermissionsGetter S) (content : RepoContent)
  (userID : Z) (a : Actor).

Lemma after_nil w : after w (storeState w) [] = w.
Proof. destruct w; unfold after; simpl. by rewrite app_nil_r. Qed.

Lemma after_after w st evs st' evs' :
  after (after w st evs) st' evs' = after w st' (evs ++ evs').
Proof. unfold after; simpl. by rewrite app_assoc. Qed.

Lemma buildMatchers_run rules : forall matchers w,
  buildMatchers rules matchers w
  = (compileAll rules matchers,
     after w (storeState w) (map EvCompile (compiledRules rules))).
Proof.
  induction rules as [|rule rest IH]; intros matchers w; simpl.
  - by rewrite after_nil.
  - unfold bind, callCompile, log, ret; simpl.
    destruct (glob_Compile rule ["/"%char]) as [e|g]; simpl.
    + reflexivity.
    + rewrite IH. unfold after; simpl. by rewrite <- app_assoc.
Qed.

Lemma anyMatch_run subject : forall matchers w,
  anyMatch matchers subject w
  = (anyMatches matchers subject,
     after w (storeState w)
       (map (fun g => EvMatch g subject) (triedMatchers matchers subject))).
Proof.
  induction matchers as [|g rest IH]; intros w; simpl.
  - by rewrite after_nil.
  - unfold bind, callMatch, log, ret; simpl.
    destruct (glob_Match g subject); simpl.
    + reflexivity.
    + rewrite IH. unfold after; simpl. by rewrite <- app_assoc.
Qed.

Lemma callRepoSupported_run getter repo w r st :
  RepoSupported getter repo (storeState w) = (r, st) ->
  callRepoSupported getter repo w = (r, after w st [EvRepoSupported repo]).
Proof.
  intros H. unfold callRepoSupported, bind, log, liftStore; simpl.
  by rewrite H.
Qed.

Lemma callGetByUser_run getter userID w r st :
  GetByUser getter userID (storeState w) = (r, st) ->
  callGetByUser getter userID w = (r, after w st [EvGetByUser userID]).
Proof.
  intros H. unfold callGetByUser, bind, log, liftStore; simpl.
  by rewrite H.
Qed.

Lemma enabled_true w :
  subRepoPermsEnabledFlag w = 1 -> (subRepoPermsEnabledFlag w =? 1) = true.
Proof. intros ->; reflexivity. Qed.

Lemma enabled_false w :
  subRepoPermsEnabledFlag w <> 1 -> (subRepoPermsEnabledFlag w =? 1) = false.
Proof. intros H. by apply Z.eqb_neq. Qed.

(** A call that reaches the rule stage returns what the rule stage
    computes, after the two store calls and the rule stage's own calls. *)
Lemma Permissions_reachesRules w getter userID content repoRules st :
  reachesRules w getter userID content repoRules st ->
  Permissions (mkClient (Some getter)) userID content w
  = (fst (ruleStage repoRules content),
     after w st ([EvRepoSupported (Repo content); EvGetByUser userID]
                 ++ snd (ruleStage repoRules content))).
Proof.
  intros (Hon & Huser & st1 & srp & Hsup & Hget & Hrepo).
  apply enabled_true in Hon. apply Z.eqb_neq in Huser.
  cbv [Permissions bind subRepoPermsEnabled ret permissionsGetter].
  rewrite Hon, Huser. simpl.
  rewrite (callRepoSupported_run _ _ _ _ _ Hsup). simpl.
  rewrite (callGetByUser_run getter userID (after w st1 _) _ _ Hget).
  rewrite Hrepo, after_after. simpl.
  rewrite buildMatchers_run. unfold ruleStage, subject.
  destruct (compileAll (PathIncludes repoRules) []) as [e|incs]; simpl.
  { by rewrite after_after. }
  rewrite buildMatchers_run.
  destruct (compileAll (PathExcludes repoRules) []) as [e|excs]; simpl.
  { by rewrite !after_after. }
  rewrite anyMatch_run.
  destruct (anyMatches excs _); simpl.
  { rewrite !after_after. simpl. by rewrite <- ?app_assoc. }
  rewrite anyMatch_run.
  destruct (anyMatches incs _); simpl;
    rewrite !after_after; simpl; by rewrite <- ?app_assoc.
Qed.

(** *** The compile and match loops *)

Lemma compileAll_ok rules : forall matchers ms,
  compileAll rules matchers = inr ms ->
  compiledRules rules = rules
  /\ exists gs, ms = matchers ++ gs
       /\ Forall2 (fun rule g => glob_Compile rule ["/"%char] = inr g) rules gs.
Proof.
  induction rules as [|rule rest IH]; intros matchers ms; simpl.
  - intros [= <-]. split; [done|]. exists []. by rewrite app_nil_r.
  - destruct (glob_Compile rule ["/"%char]) as [e|g] eqn:Hc; [done|].
    intros H. destruct (IH _ _ H) as (-> & gs & -> & HF).
    split; [done|]. exists (g :: gs). rewrite <- app_assoc. split; [done|].
    by constructor.
Qed.

Lemma compileAll_fails rules : forall matchers,
  (exists pattern e, In pattern rules /\ glob_Compile pattern ["/"%char] = inl e) ->
  exists pattern e,
    In pattern rules /\ glob_Compile pattern ["/"%char] = inl e
    /\ compileAll rules matchers = inl e.
Proof.
  induction rules as [|rule rest IH]; intros matchers (p & e & Hin & Hp).
  - destruct Hin.
  - simpl. destruct (glob_Compile rule ["/"%char]) as [e'|g] eqn:Hc.
    + exists rule, e'. by repeat split; [left|..].
    + destruct Hin as [->|Hin]; [congruence|].
      destruct (IH (matchers ++ [g])) as (p' & e'' & Hin' & Hp' & Hall).
      { by exists p, e. }
      exists p', e''. by repeat split; [right|..].
Qed.

Lemma compileAll_error_origin rules : forall matchers e,
  compileAll rules matchers = inl e ->
  exists pattern, In pattern rules /\ glob_Compile pattern ["/"%char] = inl e.
Proof.
  induction rules as [|rule rest IH]; intros matchers e; simpl; [done|].
  destruct (glob_Compile rule ["/"%char]) as [e'|g] eqn:Hc.
  - intros [= <-]. exists rule. by split; [left|].
  - intros H. destruct (IH _ _ H) as (q & Hq & Hqc).
    exists q. by split; [right|].
Qed.

Lemma anyMatches_first subj : forall matchers,
  anyMatches matchers subj = true ->
  exists asked g later,
    matchers = asked ++ g :: later
    /\ Forall (fun g' => glob_Match g' subj = false) asked
    /\ glob_Match g subj = true
    /\ triedMatchers matchers subj = asked ++ [g].
Proof.
  induction matchers as [|g rest IH]; simpl; [done|].
  destruct (glob_Match g subj) eqn:Hg; simpl.
  - intros _. exists [], g, rest. by repeat split.
  - intros H. destruct (IH H) as (asked & g' & later & -> & HF & Hg' & Ht).
    exists (g :: asked), g', later. rewrite Ht. repeat split; try done.
    by constructor.
Qed.

Lemma anyMatches_compiled rules subj : forall gs,
  Forall2 (fun rule g => glob_Compile rule ["/"%char] = inr g) rules gs ->
  (exists pattern g, In pattern rules
     /\ glob_Compile pattern ["/"%char] = inr g /\ glob_Match g subj = true) ->
  anyMatches gs subj = true.
Proof.
  induction 1 as [|rule g rules gs Hc HF IH]; intros (p & g' & Hin & Hp & Hm).
  - destruct Hin.
  - simpl. destruct Hin as [->|Hin].
    + assert (g' = g) as -> by congruence. by rewrite Hm.
    + rewrite IH; [apply orb_true_r|]. by exists p, g'.
Qed.

Lemma no_match_event_compile rules :
  forallb (fun e => negb (isMatchEvent e)) (map (@EvCompile GP) rules) = true.
Proof. by induction rules. Qed.

(** *** The short-circuits before the rule stage *)

Lemma Permissions_disabled w s userID content :
  subRepoPermsEnabledFlag w <> 1 ->
  Permissions s userID content w = ((Perms.Read, None), w).
Proof.
  intros Hoff. apply enabled_false in Hoff.
  unfold Permissions, bind, subRepoPermsEnabled. by rewrite Hoff.
Qed.

Lemma ActorPermissions_disabled w T (C : SubRepoPermissionChecker T)
    (s : T) a content :
  subRepoPermsEnabledFlag w <> 1 ->
  ActorPermissions s a content w = ((Perms.Read, None), w).
Proof.
  intros Hoff. apply enabled_false in Hoff.
  unfold ActorPermissions, bind, subRepoPermsEnabled. by rewrite Hoff.
Qed.

Lemma ActorPermissions_enabled w T (C : SubRepoPermissionChecker T)
    (s : T) a content :
  subRepoPermsEnabledFlag w = 1 ->
  ActorPermissions s a content w
  = if negb (IsAuthenticated a) then ((Perms.None, Some ErrUnauthenticated), w)
    else if IsInternal a then ((Perms.Read, None), w)
    else checkPermissions s (UID a) content w.
Proof.
  intros Hon. apply enabled_true in Hon.
  unfold ActorPermissions, bind, subRepoPermsEnabled. rewrite Hon. simpl.
  by destruct (IsAuthenticated a), (IsInternal a).
Qed.

Lemma Permissions_user_zero w s content :
  subRepoPermsEnabledFlag w = 1 ->
  Permissions s 0 content w = ((Perms.None, Some ErrUnauthenticated), w).
Proof.
  intros Hon. apply enabled_true in Hon.
  unfold Permissions, bind, subRepoPermsEnabled. by rewrite Hon.
Qed.

Lemma Permissions_nil_getter w userID content :
  subRepoPermsEnabledFlag w = 1 ->
  userID <> 0 ->
  Permissions (mkClient None) userID content w
  = ((Perms.None, Some (errors_New "PermissionsGetter is nil")), w).
Proof.
  intros Hon Huser. apply enabled_true in Hon. apply Z.eqb_neq in Huser.
  cbv [Permissions bind subRepoPermsEnabled ret permissionsGetter].
  by rewrite Hon, Huser.
Qed.

Lemma Permissions_support_error w getter userID content supported e st1 :
  subRepoPermsEnabledFlag w = 1 ->
  userID <> 0 ->
  RepoSupported getter (Repo content) (storeState w)
  = ((supported, Some e), st1) ->
  Permissions (mkClient (Some getter)) userID content w
  = ((Perms.None,
      Some (errors_Wrap e "checking for sub-repo permissions support")),
     after w st1 [EvRepoSupported (Repo content)]).
Proof.
  intros Hon Huser Hsup. apply enabled_true in Hon.
  apply Z.eqb_neq in Huser.
  cbv [Permissions bind subRepoPermsEnabled ret permissionsGetter].
  rewrite Hon, Huser. simpl.
  by rewrite (callRepoSupported_run _ _ _ _ _ Hsup).
Qed.

Lemma Permissions_unsupported w getter userID content st1 :
  subRepoPermsEnabledFlag w = 1 ->
  userID <> 0 ->
  RepoSupported getter (Repo content) (storeState w) = ((false, None), st1) ->
  Permissions (mkClient (Some getter)) userID content w
  = ((Perms.Read, None), after w st1 [EvRepoSupported (Repo content)]).
Proof.
  intros Hon Huser Hsup. apply enabled_true in Hon.
  apply Z.eqb_neq in Huser.
  cbv [Permissions bind subRepoPermsEnabled ret permissionsGetter].
  rewrite Hon, Huser. simpl.
  by rewrite (callRepoSupported_run _ _ _ _ _ Hsup).
Qed.

Lemma Permissions_rules_error w getter userID content st1 srp e st2 :
  subRepoPermsEnabledFlag w = 1 ->
  userID <> 0 ->
  RepoSupported getter (Repo content) (storeState w) = ((true, None), st1) ->
  GetByUser getter userID st1 = ((srp, Some e), st2) ->
  Permissions (mkClient (Some getter)) userID content w
  = ((Perms.None, Some (errors_Wrap e "getting permissions")),
     after w st2 [EvRepoSupported (Repo content); EvGetByUser userID]).
Proof.
  intros Hon Huser Hsup Hget. apply enabled_true in Hon.
  apply Z.eqb_neq in Huser.
  cbv [Permissions bind subRepoPermsEnabled ret permissionsGetter].
  rewrite Hon, Huser. simpl.
  rewrite (callRepoSupported_run _ _ _ _ _ Hsup). simpl.
  rewrite (callGetByUser_run getter userID (after w st1 _) _ _ Hget).
  by rewrite after_after.
Qed.

Lemma Permissions_repo_absent w getter userID content st1 srp st2 :
  subRepoPermsEnabledFlag w = 1 ->
  userID <> 0 ->
  RepoSupported getter (Repo content) (storeState w) = ((true, None), st1) ->
  GetByUser getter userID st1 = ((srp, None), st2) ->
  srp !! Repo content = None ->
  Permissions (mkClient (Some getter)) userID content w
  = ((Perms.None, None),
     after w st2 [EvRepoSupported (Repo content); EvGetByUser userID]).
Proof.
  intros Hon Huser Hsup Hget Habsent. apply enabled_true in Hon.
  apply Z.eqb_neq in Huser.
  cbv [Permissions bind subRepoPermsEnabled ret permissionsGetter].
  rewrite Hon, Huser. simpl.
  rewrite (callRepoSupported_run _ _ _ _ _ Hsup). simpl.
  rewrite (callGetByUser_run getter userID (after w st1 _) _ _ Hget).
  by rewrite Habsent, after_after.
Qed.

(** *** Where Read comes from *)

Lemma Permissions_read_iff w s userID content :
  ((fst (Permissions s userID content w)).1 = Perms.Read ->
   (fst (Permissions s userID content w)).2 = None)
  /\ ((fst (Permissions s userID content w)).1 = Perms.Read
      <-> (subRepoPermsEnabledFlag w <> 1
           \/ grantedAsUnsupported w s userID content
           \/ grantedByInclude w s userID content)).
Proof.
  destruct (decide (subRepoPermsEnabledFlag w = 1)) as [Hon|Hoff].
  2:{ rewrite Permissions_disabled by done. simpl. split; [done|split; auto]. }
  destruct (decide (userID = 0)) as [->|Huser].
  { rewrite Permissions_user_zero by done. simpl.
    split; [done|split; [done|]].
    intros [?|[(_ & ? & _)|(? & ? & ? & ? & ? & _ & (_ & ? & _) & _)]]; done. }
  destruct s as [[getter|]].
  2:{ rewrite Permissions_nil_getter by done. simpl.
      split; [done|split; [done|]].
      intros [?|[(_ & _ & ? & ? & ? & _)|(? & ? & ? & ? & ? & ? & _)]]; done. }
  destruct (RepoSupported getter (Repo content) (storeState w))
    as [[supported [e|]] st1] eqn:Hsup.
  { rewrite (Permissions_support_error _ _ _ _ _ _ _ Hon Huser Hsup). simpl.
    split; [done|split; [done|]].
    intros [?|[(_ & _ & g & ? & [= <-] & ?)
              |(g & ? & ? & ? & ? & [= <-] & (_ & _ & ? & ? & ? & _) & _)]];
      [done|congruence..]. }
  destruct supported.
  2:{ rewrite (Permissions_unsupported _ _ _ _ _ Hon Huser Hsup).
      simpl. split; [done|split; [|done]]. intros _. right; left.
      split_and!; [done..|]. by exists getter, st1. }
  destruct (GetByUser getter userID st1) as [[srp [e|]] st2] eqn:Hget.
  { rewrite (Permissions_rules_error _ _ _ _ _ _ _ _ Hon Huser Hsup Hget).
    simpl. split; [done|split; [done|]].
    intros [?|[(_ & _ & g & ? & [= <-] & ?)
              |(g & ? & ? & ? & ? & [= <-] & (_ & _ & ? & ? & ? & ? & _) & _)]];
      [done|congruence..]. }
  destruct (srp !! Repo content) as [repoRules|] eqn:Hrepo.
  2:{ rewrite (Permissions_repo_absent _ _ _ _ _ _ _ Hon Huser Hsup Hget Hrepo).
      simpl. split; [done|split; [done|]].
      intros [?|[(_ & _ & g & ? & [= <-] & ?)
                |(g & ? & ? & ? & ? & [= <-] & (_ & _ & ? & ? & ? & ? & ?) & _)]];
        [done|congruence..]. }
  assert (reachesRules w getter userID content repoRules st2) as Hreach.
  { split_and!; [done..|]. by exists st1, srp. }
  rewrite (Permissions_reachesRules _ _ _ _ _ _ Hreach). simpl.
  assert (forall P : Prop,
    (forall incs excs,
        compileAll (PathIncludes repoRules) [] = inr incs ->
        compileAll (PathExcludes repoRules) [] = inr excs ->
        anyMatches excs (subject content) = false ->
        anyMatches incs (subject content) = true -> P) ->
    subRepoPermsEnabledFlag w <> 1
    \/ grantedAsUnsupported w (mkClient (Some getter)) userID content
    \/ grantedByInclude w (mkClient (Some getter)) userID content -> P) as Hinv.
  { intros P HP [?|[(_ & _ & g & ? & [= <-] & ?)|Hg]]; [done|congruence|].
    destruct Hg as (g & rr & st' & incs & excs & [= <-]
                    & (_ & _ & st1' & srp' & Hs' & Hg' & Hr') & H1 & H2 & H3 & H4).
    assert (st1' = st1) as -> by congruence.
    assert (srp' = srp) as -> by congruence.
    assert (rr = repoRules) as -> by congruence.
    eauto. }
  unfold ruleStage.
  destruct (compileAll (PathIncludes repoRules) []) as [e|incs] eqn:Hinc; simpl.
  { split; [done|split; [done|]]. apply Hinv. intros; congruence. }
  destruct (compileAll (PathExcludes repoRules) []) as [e|excs] eqn:Hexc; simpl.
  { split; [done|split; [done|]]. apply Hinv. intros; congruence. }
  destruct (anyMatches excs (subject content)) eqn:Hex; simpl.
  { split; [done|split; [done|]]. apply Hinv. intros; congruence. }
  destruct (anyMatches incs (subject content)) eqn:Hin; simpl.
  - split; [done|split; [|done]]. intros _. right; right.
    by exists getter, repoRules, st2, incs, excs.
  - split; [done|split; [done|]]. apply Hinv. intros; congruence.
Qed.

Lemma ActorPermissions_read_iff w s a content :
  ((fst (ActorPermissions s a content w)).1 = Perms.Read ->
   (fst (ActorPermissions s a content w)).2 = None)
  /\ ((fst (ActorPermissions s a content w)).1 = Perms.Read
      <-> (subRepoPermsEnabledFlag w <> 1
           \/ (subRepoPermsEnabledFlag w = 1
               /\ IsAuthenticated a = true /\ IsInternal a = true)
           \/ (IsAuthenticated a = true /\ IsInternal a = false
               /\ (grantedAsUnsupported w s (UID a) content
                   \/ grantedByInclude w s (UID a) content)))).
Proof.
  destruct (decide (subRepoPermsEnabledFlag w = 1)) as [Hon|Hoff].
  2:{ rewrite ActorPermissions_disabled by done. simpl.
      split; [done|split; auto]. }
  rewrite ActorPermissions_enabled by done.
  destruct (IsAuthenticated a) eqn:Hauth; simpl.
  2:{ split; [done|split; [done|]].
      intros [?|[(_ & ? & _)|(? & _)]]; done. }
  destruct (IsInternal a) eqn:Hint; simpl.
  { split; [done|split; [|done]]. intros _. right; left. done. }
  destruct (Permissions_read_iff w s (UID a) content) as [Herr Hiff].
  split; [done|]. rewrite Hiff. split.
  - intros [?|H]; [done|]. right; right. done.
  - intros [?|[(_ & _ & ?)|(_ & _ & H)]]; [done|done|]. by right.
Qed.

(** *** The claims that hold for every glob package and every store *)

(** C2: while the feature flag is disabled, [Permissions] (for every
    client, user and content) and [ActorPermissions] (for every checker,
    actor and content) return (Read, nil) and leave the world as it was:
    the trace gets no event and the store keeps its state, so no store
    method is called, whatever the store would do. *)
Theorem C2_flag_disabled_grants_read w :
  subRepoPermsEnabledFlag w <> 1 ->
  (forall s userID content,
      Permissions s userID content w = ((Perms.Read, None), w))
  /\ (forall T (C : SubRepoPermissionChecker T) (s : T) a content,
      ActorPermissions s a content w = ((Perms.Read, None), w)).
Proof.
  intros Hoff. split; intros.
  - by apply Permissions_disabled.
  - by apply ActorPermissions_disabled.
Qed.

(** With the flag enabled, an internal actor that passes the
    authentication check gets (Read, nil) from [ActorPermissions], whatever
    its user id and whatever checker is passed; the checker's [Permissions]
    is not called and the world stays as it was. *)
Lemma ActorPermissions_internal_authenticated w T
    (C : SubRepoPermissionChecker T) (s : T) a content :
  subRepoPermsEnabledFlag w = 1 ->
  IsAuthenticated a = true ->
  IsInternal a = true ->
  ActorPermissions s a content w = ((Perms.Read, None), w).
Proof.
  intros Hon Hauth Hint.
  rewrite ActorPermissions_enabled by done. by rewrite Hauth, Hint.
Qed.

(** C4: in a call that reaches the rule stage with patterns that all
    compile, if some exclude pattern matches the subject then the result
    is (None, nil), whatever the include patterns match.  The exclude
    matchers are asked in their stored order up to the first that
    matches, and these are the only matchers asked: no include matcher is
    asked at all. *)
Theorem C4_exclude_takes_precedence w getter userID content repoRules st
    includeMatchers excludeMatchers :
  reachesRules w getter userID content repoRules st ->
  compileAll (PathIncludes repoRules) [] = inr includeMatchers ->
  compileAll (PathExcludes repoRules) [] = inr excludeMatchers ->
  (exists pattern g,
      In pattern (PathExcludes repoRules)
      /\ glob_Compile pattern ["/"%char] = inr g
      /\ glob_Match g (subject content) = true) ->
  exists asked g later,
    excludeMatchers = asked ++ g :: later
    /\ Forall (fun g' => glob_Match g' (subject content) = false) asked
    /\ glob_Match g (subject content) = true
    /\ Permissions (mkClient (Some getter)) userID content w
       = ((Perms.None, None),
          after w st
            ([EvRepoSupported (Repo content); EvGetByUser userID]
             ++ map EvCompile (PathIncludes repoRules ++ PathExcludes repoRules)
             ++ map (fun g' => EvMatch g' (subject content)) (asked ++ [g]))).
Proof.
  intros Hreach Hinc Hexc Hsome.
  destruct (compileAll_ok _ _ _ Hinc) as (Hci & _).
  destruct (compileAll_ok _ _ _ Hexc) as (Hce & gs & Hgs & HF).
  simpl in Hgs. subst gs.
  pose proof (anyMatches_compiled _ _ _ HF Hsome) as Hany.
  destruct (anyMatches_first _ _ Hany) as (asked & g & later & Hsplit & Hno & Hg & Ht).
  exists asked, g, later. repeat split; try done.
  rewrite (Permissions_reachesRules _ _ _ _ _ _ Hreach).
  unfold ruleStage. rewrite Hinc, Hexc, Hany, Hci, Hce, Ht. simpl.
  by rewrite !map_app, <- ?app_assoc.
Qed.

(** C5: [Permissions] returns Read exactly when the flag is disabled, or
    [RepoSupported] answered false, or an include pattern matched the
    subject while no exclude pattern did; [ActorPermissions], run with the
    client, returns Read exactly in these cases and for the internal-actor
    bypass.  Read never comes with an error, and every other outcome
    carries None. *)
Theorem C5_read_only_on_grant_paths w s userID a content :
  ((fst (Permissions s userID content w)).1 = Perms.Read
   <-> (subRepoPermsEnabledFlag w <> 1
        \/ grantedAsUnsupported w s userID content
        \/ grantedByInclude w s userID content))
  /\ ((fst (Permissions s userID content w)).1 = Perms.Read ->
      (fst (Permissions s userID content w)).2 = None)
  /\ ((fst (Permissions s userID content w)).1 <> Perms.Read ->
      (fst (Permissions s userID content w)).1 = Perms.None)
  /\ ((fst (ActorPermissions s a content w)).1 = Perms.Read
      <-> (subRepoPermsEnabledFlag w <> 1
           \/ (subRepoPermsEnabledFlag w = 1
               /\ IsAuthenticated a = true /\ IsInternal a = true)
           \/ (IsAuthenticated a = true /\ IsInternal a = false
               /\ (grantedAsUnsupported w s (UID a) content
                   \/ grantedByInclude w s (UID a) content))))
  /\ ((fst (ActorPermissions s a content w)).1 = Perms.Read ->
      (fst (ActorPermissions s a content w)).2 = None)
  /\ ((fst (ActorPermissions s a content w)).1 <> Perms.Read ->
      (fst (ActorPermissions s a content w)).1 = Perms.None).
Proof.
  destruct (Permissions_read_iff w s userID content) as [Herr Hiff].
  destruct (ActorPermissions_read_iff w s a content) as [Haerr Haiff].
  split_and!; try done.
  - by destruct (fst (Permissions s userID content w)).1.
  - by destruct (fst (ActorPermissions s a content w)).1.
Qed.

(** C6: with the flag enabled, [Permissions] called with user id 0
    returns None with the Unauthenticated error and leaves the world as it
    was (no store call); the answer is the same for every client, with or
    without a configured store, since the check for a nil getter comes
    later. *)
Theorem C6_user_zero_unauthenticated w s content :
  subRepoPermsEnabledFlag w = 1 ->
  Permissions s 0 content w = ((Perms.None, Some ErrUnauthenticated), w).
Proof. apply Permissions_user_zero. Qed.

(** C7: with the flag enabled, a real user and a configured store, if
    [RepoSupported] answers (false, nil) for the content's repo then
    [Permissions] returns (Read, nil); the only call made is that
    [RepoSupported], so [GetByUser] is never called and the user's rule
    sets play no part. *)
Theorem C7_unsupported_repo_grants_read w getter userID content st1 :
  subRepoPermsEnabledFlag w = 1 ->
  userID <> 0 ->
  RepoSupported getter (Repo content) (storeState w) = ((false, None), st1) ->
  Permissions (mkClient (Some getter)) userID content w
  = ((Perms.Read, None), after w st1 [EvRepoSupported (Repo content)]).
Proof. apply Permissions_unsupported. Qed.

(** C8: with the flag enabled, the repo supported and [GetByUser]
    succeeding, a repo that is absent from the returned map gives
    (None, nil), a success and not an error; the calls made are the two
    store calls, and no pattern is compiled or matched. *)
Theorem C8_repo_absent_denies w getter userID content st1 srp st2 :
  subRepoPermsEnabledFlag w = 1 ->
  userID <> 0 ->
  RepoSupported getter (Repo content) (storeState w) = ((true, None), st1) ->
  GetByUser getter userID st1 = ((srp, None), st2) ->
  srp !! Repo content = None ->
  Permissions (mkClient (Some getter)) userID content w
  = ((Perms.None, None),
     after w st2 [EvRepoSupported (Repo content); EvGetByUser userID]).
Proof. apply Permissions_repo_absent. Qed.

(** C9: in a call that reaches the rule stage, if some pattern of the
    repo's includes or excludes fails to compile then the result is None
    together with an error that wraps the compile error of one of the
    patterns, never a decision without error, and no matcher is asked
    during the call. *)
Theorem C9_compile_failure_aborts w getter userID content repoRules st :
  reachesRules w getter userID content repoRules st ->
  (exists pattern e,
      In pattern (PathIncludes repoRules ++ PathExcludes repoRules)
      /\ glob_Compile pattern ["/"%char] = inl e) ->
  exists pattern cause msg evs,
    In pattern (PathIncludes repoRules ++ PathExcludes repoRules)
    /\ glob_Compile pattern ["/"%char] = inl cause
    /\ (msg = "building include matcher" \/ msg = "building exclude matcher")
    /\ Permissions (mkClient (Some getter)) userID content w
       = ((Perms.None, Some (errors_Wrap cause msg)), after w st evs)
    /\ forallb (fun e => negb (isMatchEvent e)) evs = true.
Proof.
  intros Hreach (p & e & Hin & Hp).
  rewrite (Permissions_reachesRules _ _ _ _ _ _ Hreach).
  unfold ruleStage.
  destruct (compileAll (PathIncludes repoRules) []) as [ei|incs] eqn:Hinc.
  - assert (exists pattern, In pattern (PathIncludes repoRules)
              /\ glob_Compile pattern ["/"%char] = inl ei) as (q & Hq & Hqc).
    { destruct (compileAll_error_origin (PathIncludes repoRules) [] ei Hinc)
        as (q & Hq & Hqc). by exists q. }
    exists q, ei, "building include matcher". eexists.
    split_and!; [apply in_or_app; by left|done|by left|reflexivity|].
    simpl. apply no_match_event_compile.
  - assert (exists pattern e', In pattern (PathExcludes repoRules)
              /\ glob_Compile pattern ["/"%char] = inl e') as Hexf.
    { apply in_app_or in Hin as [Hin|Hin]; [|by exists p, e].
      destruct (compileAll_ok _ _ _ Hinc) as (_ & gs & _ & HF).
      exfalso. clear -HF Hin Hp.
      induction HF as [|rule g rules gs Hc HF IH]; [done|].
      destruct Hin as [->|Hin]; [congruence|auto]. }
    destruct (compileAll_fails _ [] Hexf) as (q & ee & Hq & Hqc & Hall).
    rewrite Hall.
    exists q, ee, "building exclude matcher". eexists.
    split_and!; [apply in_or_app; by right|done|by right|reflexivity|].
    simpl. by rewrite forallb_app, !no_match_event_compile.
Qed.


End Properties.

(** *** The exclude example, with the glob package of the program *)

Section ExcludeExample.

Context {S : Type}.

Lemma ruleStage_example (w : @World gobwasPackage S) getter userID st1 srp st2
    rules file :
  subRepoPermsEnabledFlag w = 1 ->
  userID <> 0 ->
  RepoSupported getter "r" (storeState w) = ((true, None), st1) ->
  GetByUser getter userID st1 = ((srp, None), st2) ->
  srp !! "r" = Some rules ->
  fst (Permissions (mkClient (Some getter)) userID (mkRepoContent "r" file) w)
  = fst (ruleStage rules (mkRepoContent "r" file)).
Proof.
  intros Hon Huser Hsup Hget Hrepo.
  rewrite (Permissions_reachesRules w getter userID _ rules st2); [done|].
  split_and!; [done..|]. by exists st1, srp.
Qed.

(** C1, as amended: for a user whose rule set for repo "r" has the include
    "**" and one exclude, with the flag enabled, the repo supported and
    present in the result of [GetByUser]: if the exclude is "r/secret/**",
    rooted at the repo name as the subject is, [Permissions] returns None
    for the path "secret/file.txt" and Read for "public/file.txt"; if the
    exclude is "secret/**" it does not match the subject
    "r/secret/file.txt", and both paths get Read. *)
Theorem C1_exclude_rooted_at_repo (w : @World gobwasPackage S) getter userID
    st1 srp st2 exclude :
  subRepoPermsEnabledFlag w = 1 ->
  userID <> 0 ->
  RepoSupported getter "r" (storeState w) = ((true, None), st1) ->
  GetByUser getter userID st1 = ((srp, None), st2) ->
  srp !! "r" = Some (mkSubRepoPermissions ["**"] [exclude]) ->
  (exclude = "r/secret/**" ->
   fst (Permissions (mkClient (Some getter)) userID
          (mkRepoContent "r" "secret/file.txt") w) = (Perms.None, None)
   /\ fst (Permissions (mkClient (Some getter)) userID
             (mkRepoContent "r" "public/file.txt") w) = (Perms.Read, None))
  /\ (exclude = "secret/**" ->
      fst (Permissions (mkClient (Some getter)) userID
             (mkRepoContent "r" "secret/file.txt") w) = (Perms.Read, None)
      /\ fst (Permissions (mkClient (Some getter)) userID
                (mkRepoContent "r" "public/file.txt") w) = (Perms.Read, None)).
Proof.
  intros Hon Huser Hsup Hget Hrepo.
  rewrite !(ruleStage_example w getter userID st1 srp st2 _ _
              Hon Huser Hsup Hget Hrepo).
  split; intros ->; split; vm_compute; reflexivity.
Qed.

End ExcludeExample.

(** ** The claims at concrete inputs *)

(** The claim C1 as it is written fails: with the exclude "secret/**" the
    call for "secret/file.txt" returns Read, not None, since the subject is
    "r/secret/file.txt". *)
Lemma C1_counterexample :
  subRepoPermsEnabledFlag (startWorld 1) = 1
  /\ RepoSupported (storeWith unrootedRules) "r" tt = ((true, None), tt)
  /\ (fst (GetByUser (storeWith unrootedRules) 7 tt)).1 !! "r"
     = Some (mkSubRepoPermissions ["**"] ["secret/**"])
  /\ subject secretFile = "r/secret/file.txt"
  /\ fst (Permissions (mkClient (Some (storeWith unrootedRules))) 7 secretFile
            (startWorld 1)) = (Perms.Read, None)
  /\ (fst (Permissions (mkClient (Some (storeWith unrootedRules))) 7 secretFile
             (startWorld 1))).1 <> Perms.None.
Proof. split_and!; try (vm_compute; reflexivity). vm_compute. discriminate. Qed.

Lemma C1_witness :
  (fst (Permissions (mkClient (Some (storeWith rootedRules))) 7 secretFile
          (startWorld 1)) = (Perms.None, None)
   /\ fst (Permissions (mkClient (Some (storeWith rootedRules))) 7 publicFile
             (startWorld 1)) = (Perms.Read, None)).
Proof.
  apply (C1_exclude_rooted_at_repo (startWorld 1) (storeWith rootedRules) 7
           tt {[ "r" := rootedRules ]} tt "r/secret/**").
  - reflexivity.
  - lia.
  - reflexivity.
  - reflexivity.
  - vm_compute. reflexivity.
  - reflexivity.
Defined.

Lemma C2_witness :
  subRepoPermsEnabledFlag (startWorld 0) <> 1
  /\ Permissions (mkClient (Some (storeWith rootedRules))) 7 secretFile
       (startWorld 0) = ((Perms.Read, None), startWorld 0)
  /\ ActorPermissions (mkClient (Some (storeWith rootedRules)))
       internalAnonymous secretFile (startWorld 0)
     = ((Perms.Read, None), startWorld 0).
Proof.
  assert (subRepoPermsEnabledFlag (startWorld 0) <> 1) as Hoff by (simpl; lia).
  split; [exact Hoff|].
  destruct (C2_flag_disabled_grants_read (startWorld 0) Hoff) as [HP HA].
  split; [apply HP|apply HA].
Defined.

(** C3: the code at the internal actor without a user identity (user id 0,
    not authenticated, internal), with the flag enabled.  The comment of
    [ActorPermissions] grants Read to an internal context; the code tests
    the authentication first and answers None with the Unauthenticated
    error, so the bypass that follows is never reached for this actor. *)
Lemma C3_internal_actor_is_rejected :
  subRepoPermsEnabledFlag (startWorld 1) = 1
  /\ UID internalAnonymous = 0
  /\ IsInternal internalAnonymous = true
  /\ ActorPermissions (mkClient (Some (storeWith rootedRules)))
       internalAnonymous publicFile (startWorld 1)
     = ((Perms.None, Some ErrUnauthenticated), startWorld 1)
  /\ fst (ActorPermissions (mkClient (Some (storeWith rootedRules)))
            internalAnonymous publicFile (startWorld 1))
     <> (Perms.Read, None).
Proof. split_and!; try (vm_compute; reflexivity). vm_compute. discriminate. Qed.

Lemma reachesRules_example rules content :
  Repo content = "r" ->
  reachesRules (startWorld 1) (storeWith rules) 7 content rules tt.
Proof.
  intros Hr. split_and!; [reflexivity|lia|].
  exists tt, {[ "r" := rules ]}. rewrite Hr.
  split_and!; [reflexivity..|]. apply lookup_singleton_eq.
Defined.

Lemma C4_witness :
  exists asked g later,
    [underSecret] = asked ++ g :: later
    /\ Forall (fun g' => glob_Match g' (subject secretFile) = false) asked
    /\ glob_Match g (subject secretFile) = true
    /\ Permissions (mkClient (Some (storeWith rootedRules))) 7 secretFile
         (startWorld 1)
       = ((Perms.None, None),
          after (startWorld 1) tt
            ([EvRepoSupported "r"; EvGetByUser 7]
             ++ map EvCompile (["**"] ++ ["r/secret/**"])
             ++ map (fun g' => EvMatch g' (subject secretFile)) (asked ++ [g]))).
Proof.
  apply (C4_exclude_takes_precedence (startWorld 1) (storeWith rootedRules) 7
           secretFile rootedRules tt [everything] [underSecret]).
  - apply reachesRules_example. reflexivity.
  - vm_compute. reflexivity.
  - vm_compute. reflexivity.
  - exists "r/secret/**", underSecret.
    split_and!; [left; reflexivity|vm_compute; reflexivity..].
Defined.

Lemma C6_witness :
  Permissions (mkClient None) 0 secretFile (startWorld 1)
  = ((Perms.None, Some ErrUnauthenticated), startWorld 1).
Proof. apply (C6_user_zero_unauthenticated (startWorld 1)). reflexivity. Defined.

Lemma C7_witness :
  Permissions (mkClient (Some (fixedGetter false {[ "r" := unrootedRules ]})))
    7 secretFile (startWorld 1)
  = ((Perms.Read, None), after (startWorld 1) tt [EvRepoSupported "r"]).
Proof.
  apply (C7_unsupported_repo_grants_read (startWorld 1)
           (fixedGetter false {[ "r" := unrootedRules ]}) 7 secretFile tt).
  - reflexivity.
  - lia.
  - reflexivity.
Defined.

Lemma C8_witness :
  Permissions (mkClient (Some (storeWith rootedRules))) 7
    (mkRepoContent "other" "a.txt") (startWorld 1)
  = ((Perms.None, None),
     after (startWorld 1) tt [EvRepoSupported "other"; EvGetByUser 7]).
Proof.
  apply (C8_repo_absent_denies (startWorld 1) (storeWith rootedRules) 7
           (mkRepoContent "other" "a.txt") tt {[ "r" := rootedRules ]} tt).
  - reflexivity.
  - lia.
  - reflexivity.
  - reflexivity.
  - vm_compute. reflexivity.
Defined.

Lemma C9_witness :
  exists pattern cause msg evs,
    In pattern (["**"; "["] ++ ["r/secret/**"])
    /\ glob_Compile pattern ["/"%char] = inl cause
    /\ (msg = "building include matcher" \/ msg = "building exclude matcher")
    /\ Permissions (mkClient (Some (storeWith brokenRules))) 7 secretFile
         (startWorld 1)
       = ((Perms.None, Some (errors_Wrap cause msg)), after (startWorld 1) tt evs)
    /\ forallb (fun e => negb (isMatchEvent e)) evs = true.
Proof.
  apply (C9_compile_failure_aborts (startWorld 1) (storeWith brokenRules) 7
           secretFile brokenRules tt).
  - apply reachesRules_example. reflexivity.
  - exists "[", (errors_New "unexpected end of input").
    split; [right; left; reflexivity|vm_compute; reflexivity].
Defined.

(** ** Further properties of the procedure *)

Section MoreProperties.

Context {GP : GlobPackage} {S : Type}.

Implicit Types (w : @World GP S) (s : @subRepoPermsClient S)
  (getter : @SubRepoPermissionsGetter S) (content : RepoContent)
  (userID : Z) (a : Actor).

(** *** Errors before the rule stage *)

(** X1: a client built without a getter answers a real user, once the flag
    is enabled, with None and the error "PermissionsGetter is nil"; the
    world stays as it was. *)
Theorem X1_nil_getter_is_an_error w userID content :
  subRepoPermsEnabledFlag w = 1 ->
  userID <> 0 ->
  Permissions (NewSubRepoPermsClient None) userID content w
  = ((Perms.None, Some (errors_New "PermissionsGetter is nil")), w).
Proof. apply Permissions_nil_getter. Qed.

(** X2: an error of [RepoSupported] is returned wrapped, with None,
    whatever boolean came with it; [GetByUser] is not called. *)
Theorem X2_support_error_is_wrapped w getter userID content supported e st1 :
  subRepoPermsEnabledFlag w = 1 ->
  userID <> 0 ->
  RepoSupported getter (Repo content) (storeState w)
  = ((supported, Some e), st1) ->
  Permissions (mkClient (Some getter)) userID content w
  = ((Perms.None,
      Some (errors_Wrap e "checking for sub-repo permissions support")),
     after w st1 [EvRepoSupported (Repo content)]).
Proof. apply Permissions_support_error. Qed.

(** X3: an error of [GetByUser] is returned wrapped, with None, whatever
    map came with it; no pattern is compiled or matched. *)
Theorem X3_rules_error_is_wrapped w getter userID content st1 srp e st2 :
  subRepoPermsEnabledFlag w = 1 ->
  userID <> 0 ->
  RepoSupported getter (Repo content) (storeState w) = ((true, None), st1) ->
  GetByUser getter userID st1 = ((srp, Some e), st2) ->
  Permissions (mkClient (Some getter)) userID content w
  = ((Perms.None, Some (errors_Wrap e "getting permissions")),
     after w st2 [EvRepoSupported (Repo content); EvGetByUser userID]).
Proof. apply Permissions_rules_error. Qed.

(** *** The decision in terms of patterns *)

Lemma compileAll_compiles rules : forall matchers,
  forallb compiles rules = true ->
  exists gs, compileAll rules matchers = inr (matchers ++ gs)
    /\ Forall2 (fun rule g => glob_Compile rule ["/"%char] = inr g) rules gs.
Proof.
  induction rules as [|rule rest IH]; intros matchers; simpl.
  - intros _. exists []. by rewrite app_nil_r.
  - unfold compiles at 1.
    destruct (glob_Compile rule ["/"%char]) as [e|g] eqn:Hc; [done|].
    simpl. intros H. destruct (IH (matchers ++ [g]) H) as (gs & -> & HF).
    exists (g :: gs). rewrite <- app_assoc. split; [done|]. by constructor.
Qed.

Lemma compileAll_inr_compiles rules matchers ms :
  compileAll rules matchers = inr ms -> forallb compiles rules = true.
Proof.
  intros H. destruct (compileAll_ok _ _ _ H) as (_ & gs & _ & HF).
  clear H. induction HF as [|rule g rules gs Hc HF IH]; [done|].
  simpl. unfold compiles at 1. by rewrite Hc.
Qed.

Lemma compileAll_inl_compiles rules matchers e :
  compileAll rules matchers = inl e -> forallb compiles rules = false.
Proof.
  intros H. destruct (forallb compiles rules) eqn:Hall; [|done].
  destruct (compileAll_compiles rules matchers Hall) as (gs & Hgs & _).
  congruence.
Qed.

Lemma anyMatches_patterns subj rules gs :
  Forall2 (fun rule g => glob_Compile rule ["/"%char] = inr g) rules gs ->
  anyMatches gs subj = existsb (patternMatches subj) rules.
Proof.
  induction 1 as [|rule g rules gs Hc HF IH]; [done|].
  simpl. unfold patternMatches at 1. rewrite Hc. by rewrite <- IH.
Qed.

Lemma ruleStage_decision repoRules content :
  (fst (@ruleStage GP repoRules content)).1 = ruleDecision repoRules content.
Proof.
  unfold ruleStage, ruleDecision. rewrite forallb_app.
  destruct (compileAll (PathIncludes repoRules) []) as [e|incs] eqn:Hinc.
  { by rewrite (compileAll_inl_compiles _ _ _ Hinc). }
  rewrite (compileAll_inr_compiles _ _ _ Hinc).
  destruct (compileAll_ok _ _ _ Hinc) as (_ & gi & -> & HFi). simpl.
  destruct (compileAll (PathExcludes repoRules) []) as [e|excs] eqn:Hexc.
  { by rewrite (compileAll_inl_compiles _ _ _ Hexc). }
  rewrite (compileAll_inr_compiles _ _ _ Hexc).
  destruct (compileAll_ok _ _ _ Hexc) as (_ & ge & -> & HFe). simpl.
  rewrite (anyMatches_patterns _ _ _ HFi), (anyMatches_patterns _ _ _ HFe).
  destruct (existsb _ (PathExcludes repoRules)); [done|]. simpl.
  by destruct (existsb _ (PathIncludes repoRules)).
Qed.

Lemma Permissions_decision w getter userID content repoRules st :
  reachesRules w getter userID content repoRules st ->
  (fst (Permissions (mkClient (Some getter)) userID content w)).1
  = ruleDecision repoRules content.
Proof.
  intros Hreach. rewrite (Permissions_reachesRules _ _ _ _ _ _ Hreach).
  apply ruleStage_decision.
Qed.

(** X4: in a call that reaches the rule stage, the level returned is Read
    exactly when every stored pattern compiles, no exclude pattern matches
    the subject and some include pattern does; in every other case it is
    None. *)
Theorem X4_decision_by_patterns w getter userID content repoRules st :
  reachesRules w getter userID content repoRules st ->
  (fst (Permissions (mkClient (Some getter)) userID content w)).1
  = ruleDecision repoRules content.
Proof. apply Permissions_decision. Qed.

Lemma forallb_same_members {A} (f : A -> bool) l l' :
  (forall x, In x l <-> In x l') -> forallb f l = forallb f l'.
Proof.
  intros Hm. apply eq_true_iff_eq. rewrite !forallb_forall.
  split; intros H x Hx; apply H, Hm, Hx.
Qed.

Lemma existsb_same_members {A} (f : A -> bool) l l' :
  (forall x, In x l <-> In x l') -> existsb f l = existsb f l'.
Proof.
  intros Hm. apply eq_true_iff_eq. rewrite !existsb_exists.
  split; intros (x & Hx & Hf); exists x; (split; [by apply Hm|done]).
Qed.

Lemma existsb_more {A} (f : A -> bool) l l' :
  (forall x, In x l -> In x l') -> existsb f l = true -> existsb f l' = true.
Proof.
  intros Hm. rewrite !existsb_exists. intros (x & Hx & Hf). exists x. auto.
Qed.

Lemma forallb_fewer {A} (f : A -> bool) l l' :
  (forall x, In x l -> In x l') -> forallb f l' = true -> forallb f l = true.
Proof. intros Hm. rewrite !forallb_forall. auto. Qed.

(** X5: the level decided at the rule stage depends on which patterns the
    two lists hold, not on their order or on repetitions: two rule sets
    with the same include patterns and the same exclude patterns give the
    same level for the same subject. *)
Theorem X5_pattern_order_is_irrelevant w getter userID content repoRules st
    w' getter' userID' content' repoRules' st' :
  reachesRules w getter userID content repoRules st ->
  reachesRules w' getter' userID' content' repoRules' st' ->
  subject content = subject content' ->
  (forall p, In p (PathIncludes repoRules) <-> In p (PathIncludes repoRules')) ->
  (forall p, In p (PathExcludes repoRules) <-> In p (PathExcludes repoRules')) ->
  (fst (Permissions (mkClient (Some getter)) userID content w)).1
  = (fst (Permissions (mkClient (Some getter')) userID' content' w')).1.
Proof.
  intros Hr Hr' Hsubj Hi He.
  rewrite (Permissions_decision _ _ _ _ _ _ Hr), (Permissions_decision _ _ _ _ _ _ Hr').
  unfold ruleDecision. rewrite <- Hsubj, !forallb_app.
  rewrite (forallb_same_members compiles _ _ Hi).
  rewrite (forallb_same_members compiles _ _ He).
  rewrite (existsb_same_members (patternMatches (subject content)) _ _ Hi).
  by rewrite (existsb_same_members (patternMatches (subject content)) _ _ He).
Qed.

(** X6: taking include patterns away or adding exclude patterns never
    grants access: if the call returns Read under rules whose includes are
    among those of a second rule set and whose excludes contain those of
    the second, then it returns Read under the second as well, provided the
    second's includes all compile. *)
Theorem X6_rules_are_monotone w getter userID content repoRules st
    w' getter' userID' content' repoRules' st' :
  reachesRules w getter userID content repoRules st ->
  reachesRules w' getter' userID' content' repoRules' st' ->
  subject content = subject content' ->
  (forall p, In p (PathIncludes repoRules) -> In p (PathIncludes repoRules')) ->
  (forall p, In p (PathExcludes repoRules') -> In p (PathExcludes repoRules)) ->
  forallb compiles (PathIncludes repoRules') = true ->
  (fst (Permissions (mkClient (Some getter)) userID content w)).1 = Perms.Read ->
  (fst (Permissions (mkClient (Some getter')) userID' content' w')).1 = Perms.Read.
Proof.
  intros Hr Hr' Hsubj Hi He Hc.
  rewrite (Permissions_decision _ _ _ _ _ _ Hr), (Permissions_decision _ _ _ _ _ _ Hr').
  unfold ruleDecision. rewrite <- Hsubj, !forallb_app, Hc.
  destruct (forallb compiles (PathIncludes repoRules)); [|done].
  destruct (forallb compiles (PathExcludes repoRules)) eqn:Hce; [|done].
  rewrite (forallb_fewer compiles _ _ He Hce). simpl.
  destruct (existsb _ (PathExcludes repoRules)) eqn:Hex; [done|]. simpl.
  destruct (existsb _ (PathExcludes repoRules')) eqn:Hex'.
  { by rewrite (existsb_more _ _ _ He Hex') in Hex. }
  simpl.
  destruct (existsb _ (PathIncludes repoRules)) eqn:Hin; [|done].
  by rewrite (existsb_more _ _ _ Hi Hin).
Qed.

Lemma triedMatchers_all subj : forall matchers,
  @anyMatches GP matchers subj = false -> triedMatchers matchers subj = matchers.
Proof.
  induction matchers as [|g rest IH]; simpl; [done|].
  destruct (glob_Match g subj); simpl; [done|]. intros H. by rewrite IH.
Qed.

(** X7: the default is to deny.  In a call that reaches the rule stage
    with patterns that all compile, if no pattern matches the subject the
    result is (None, nil), and every matcher has been asked once: the
    exclude matchers in their order, then the include matchers in theirs.
    A repo with no pattern at all is such a case. *)
Theorem X7_no_match_denies w getter userID content repoRules st
    includeMatchers excludeMatchers :
  reachesRules w getter userID content repoRules st ->
  compileAll (PathIncludes repoRules) [] = inr includeMatchers ->
  compileAll (PathExcludes repoRules) [] = inr excludeMatchers ->
  anyMatches excludeMatchers (subject content) = false ->
  anyMatches includeMatchers (subject content) = false ->
  Permissions (mkClient (Some getter)) userID content w
  = ((Perms.None, None),
     after w st
       ([EvRepoSupported (Repo content); EvGetByUser userID]
        ++ map EvCompile (PathIncludes repoRules ++ PathExcludes repoRules)
        ++ map (fun g => EvMatch g (subject content))
               (excludeMatchers ++ includeMatchers))).
Proof.
  intros Hreach Hinc Hexc Hne Hni.
  destruct (compileAll_ok _ _ _ Hinc) as (Hci & _).
  destruct (compileAll_ok _ _ _ Hexc) as (Hce & _).
  rewrite (Permissions_reachesRules _ _ _ _ _ _ Hreach).
  unfold ruleStage. rewrite Hinc, Hexc, Hne, Hni, Hci, Hce.
  rewrite !triedMatchers_all by done. simpl.
  by rewrite !map_app, <- ?app_assoc.
Qed.

Lemma compileAll_first_failure pre p post e : forall matchers,
  forallb compiles pre = true ->
  glob_Compile p ["/"%char] = inl e ->
  compileAll (pre ++ p :: post) matchers = inl e
  /\ compiledRules (pre ++ p :: post) = pre ++ [p].
Proof.
  induction pre as [|q pre IH]; intros matchers; simpl.
  - intros _ ->. done.
  - unfold compiles at 1.
    destruct (glob_Compile q ["/"%char]) as [e'|g]; [done|]. simpl.
    intros Hpre Hp. destruct (IH (matchers ++ [g]) Hpre Hp) as [-> ->]. done.
Qed.

(** X8: the patterns are compiled in order, all includes before any
    exclude, and the first failure ends the call.  When an include fails,
    the error wraps its compile error under "building include matcher",
    the includes after it and all excludes are never compiled, and no
    matcher is asked, whatever the excludes are. *)
Theorem X8_first_bad_include_ends_the_call w getter userID content repoRules st
    pre p post e :
  reachesRules w getter userID content repoRules st ->
  PathIncludes repoRules = pre ++ p :: post ->
  forallb compiles pre = true ->
  glob_Compile p ["/"%char] = inl e ->
  Permissions (mkClient (Some getter)) userID content w
  = ((Perms.None, Some (errors_Wrap e "building include matcher")),
     after w st
       ([EvRepoSupported (Repo content); EvGetByUser userID]
        ++ map EvCompile (pre ++ [p]))).
Proof.
  intros Hreach Hsplit Hpre Hp.
  destruct (compileAll_first_failure pre p post e [] Hpre Hp) as [Hall Hcr].
  rewrite (Permissions_reachesRules _ _ _ _ _ _ Hreach).
  unfold ruleStage. by rewrite Hsplit, Hall, Hcr.
Qed.

(** X9: when the includes all compile and an exclude fails, the error
    wraps its compile error under "building exclude matcher"; every include
    has been compiled, the excludes up to the failing one, and no matcher
    is asked, even if an include would match. *)
Theorem X9_first_bad_exclude_ends_the_call w getter userID content repoRules st
    pre p post e :
  reachesRules w getter userID content repoRules st ->
  forallb compiles (PathIncludes repoRules) = true ->
  PathExcludes repoRules = pre ++ p :: post ->
  forallb compiles pre = true ->
  glob_Compile p ["/"%char] = inl e ->
  Permissions (mkClient (Some getter)) userID content w
  = ((Perms.None, Some (errors_Wrap e "building exclude matcher")),
     after w st
       ([EvRepoSupported (Repo content); EvGetByUser userID]
        ++ map EvCompile (PathIncludes repoRules ++ pre ++ [p]))).
Proof.
  intros Hreach Hinc Hsplit Hpre Hp.
  destruct (compileAll_first_failure pre p post e [] Hpre Hp) as [Hall Hcr].
  destruct (compileAll_compiles _ [] Hinc) as (gs & Hgs & _).
  destruct (compileAll_ok _ _ _ Hgs) as (Hci & _).
  rewrite (Permissions_reachesRules _ _ _ _ _ _ Hreach).
  unfold ruleStage. rewrite Hgs, Hsplit, Hall, Hcr, Hci. simpl.
  by rewrite !map_app, <- ?app_assoc.
Qed.

(** *** The calls a check makes *)

Lemma glob_events_compile rules :
  forallb (fun e => negb (isStoreEvent e)) (map (@EvCompile GP) rules) = true.
Proof. by induction rules. Qed.

Lemma glob_events_match subj (ms : list Glob) :
  forallb (fun e => negb (isStoreEvent e))
          (map (fun g => @EvMatch GP g subj) ms) = true.
Proof. by induction ms. Qed.

Lemma ruleStage_glob_events repoRules content :
  forallb (fun e => negb (isStoreEvent e))
          (snd (@ruleStage GP repoRules content)) = true.
Proof.
  unfold ruleStage.
  destruct (compileAll (PathIncludes repoRules) []); simpl.
  { apply glob_events_compile. }
  destruct (compileAll (PathExcludes repoRules) []); simpl.
  { by rewrite forallb_app, !glob_events_compile. }
  destruct (anyMatches _ _); simpl.
  { by rewrite !forallb_app, !glob_events_compile, glob_events_match. }
  destruct (anyMatches _ _); simpl;
    by rewrite !forallb_app, !glob_events_compile, !glob_events_match.
Qed.

(** X10: what a call of [Permissions] does to the world, whatever its
    arguments.  It never writes the flag and only appends to the trace.  It
    calls the store at most twice: either not at all, or [RepoSupported]
    alone for the content's repo, or [RepoSupported] and then [GetByUser]
    for the given user, each once and before any call to the glob package.
    The store's state afterwards is the one these calls left. *)
Theorem X10_store_call_protocol w s userID content :
  subRepoPermsEnabledFlag (snd (Permissions s userID content w))
  = subRepoPermsEnabledFlag w
  /\ exists evs,
      trace (snd (Permissions s userID content w)) = trace w ++ evs
      /\ ((evs = []
           /\ storeState (snd (Permissions s userID content w)) = storeState w)
          \/ exists getter,
              permissionsGetter s = Some getter
              /\ ((evs = [EvRepoSupported (Repo content)]
                   /\ storeState (snd (Permissions s userID content w))
                      = snd (RepoSupported getter (Repo content) (storeState w)))
                  \/ exists globEvs,
                      evs = EvRepoSupported (Repo content)
                            :: EvGetByUser userID :: globEvs
                      /\ forallb (fun e => negb (isStoreEvent e)) globEvs = true
                      /\ storeState (snd (Permissions s userID content w))
                         = snd (GetByUser getter userID
                                  (snd (RepoSupported getter (Repo content)
                                          (storeState w)))))).
Proof.
  destruct (decide (subRepoPermsEnabledFlag w = 1)) as [Hon|Hoff].
  2:{ rewrite Permissions_disabled by done. simpl. split; [done|].
      exists []. rewrite app_nil_r. split; [done|]. by left. }
  destruct (decide (userID = 0)) as [->|Huser].
  { rewrite Permissions_user_zero by done. simpl. split; [done|].
    exists []. rewrite app_nil_r. split; [done|]. by left. }
  destruct s as [[getter|]].
  2:{ rewrite Permissions_nil_getter by done. simpl. split; [done|].
      exists []. rewrite app_nil_r. split; [done|]. by left. }
  destruct (RepoSupported getter (Repo content) (storeState w))
    as [[supported [e|]] st1] eqn:Hsup.
  { rewrite (Permissions_support_error _ _ _ _ _ _ _ Hon Huser Hsup). simpl.
    split; [done|]. eexists. split; [done|]. right. exists getter.
    split; [done|]. left. by rewrite Hsup. }
  destruct supported.
  2:{ rewrite (Permissions_unsupported _ _ _ _ _ Hon Huser Hsup). simpl.
      split; [done|]. eexists. split; [done|]. right. exists getter.
      split; [done|]. left. by rewrite Hsup. }
  destruct (GetByUser getter userID st1) as [[srp [e|]] st2] eqn:Hget.
  { rewrite (Permissions_rules_error _ _ _ _ _ _ _ _ Hon Huser Hsup Hget).
    simpl. split; [done|]. eexists. split; [done|]. right. exists getter.
    split; [done|]. right. exists []. rewrite Hsup. simpl. by rewrite Hget. }
  destruct (srp !! Repo content) as [repoRules|] eqn:Hrepo.
  2:{ rewrite (Permissions_repo_absent _ _ _ _ _ _ _ Hon Huser Hsup Hget Hrepo).
      simpl. split; [done|]. eexists. split; [done|]. right. exists getter.
      split; [done|]. right. exists []. rewrite Hsup. simpl. by rewrite Hget. }
  assert (reachesRules w getter userID content repoRules st2) as Hreach.
  { split_and!; [done..|]. by exists st1, srp. }
  rewrite (Permissions_reachesRules _ _ _ _ _ _ Hreach). simpl.
  split; [done|]. eexists. split; [done|]. right. exists getter.
  split; [done|]. right. exists (snd (ruleStage repoRules content)).
  rewrite Hsup. simpl. rewrite Hget. split_and!; try done.
  apply ruleStage_glob_events.
Qed.

(** *** The gate in front of the check *)

(** X11: with the flag enabled, an actor that does not pass the
    authentication check gets None with the Unauthenticated error; the
    checker is not called and the world stays as it was, whatever checker
    is passed and whether the actor is internal or not. *)
Theorem X11_unauthenticated_actor_is_rejected w T
    (C : SubRepoPermissionChecker T) (s : T) a content :
  subRepoPermsEnabledFlag w = 1 ->
  IsAuthenticated a = false ->
  ActorPermissions s a content w
  = ((Perms.None, Some ErrUnauthenticated), w).
Proof.
  intros Hon Hauth. rewrite ActorPermissions_enabled by done.
  by rewrite Hauth.
Qed.

(** X12: for an actor that is not internal, and whose authentication
    answer agrees with its user id (authenticated, or user id 0), the gate
    is transparent: [ActorPermissions] and [CurrentUserPermissions], run
    with the client, do what [Permissions] does for the actor's user id,
    result and world alike, whether the flag is enabled or not. *)
Theorem X12_gate_is_transparent_for_users w s a content :
  IsInternal a = false ->
  IsAuthenticated a = true \/ UID a = 0 ->
  ActorPermissions s a content w = Permissions s (UID a) content w
  /\ CurrentUserPermissions a s content w = Permissions s (UID a) content w.
Proof.
  intros Hint Hagree. unfold CurrentUserPermissions.
  assert (ActorPermissions s a content w = Permissions s (UID a) content w);
    [|done].
  destruct (decide (subRepoPermsEnabledFlag w = 1)) as [Hon|Hoff].
  2:{ by rewrite ActorPermissions_disabled, Permissions_disabled. }
  rewrite ActorPermissions_enabled by done. rewrite Hint.
  destruct (IsAuthenticated a) eqn:Hauth; simpl; [done|].
  destruct Hagree as [? | ->]; [done|]. by rewrite Permissions_user_zero.
Qed.

(** *** The flag *)

Lemma watchCallback_run (c : conf_Unified) w :
  watchCallback c w
  = (tt, mkWorld (if enables c then 1 else 0) (storeState w) (trace w)).
Proof. unfold watchCallback, enables. by destruct (match _ with Some _ => _ | None => _ end). Qed.

Lemma watchAll_run (configs : list conf_Unified) : forall w,
  watchAll configs w
  = (tt, mkWorld (match last configs with
                  | Some c => if enables c then 1 else 0
                  | None => subRepoPermsEnabledFlag w
                  end) (storeState w) (trace w)).
Proof.
  induction configs as [|c rest IH]; intros w.
  - by destruct w.
  - simpl watchAll. unfold bind. rewrite watchCallback_run, IH. simpl.
    rewrite (last_cons c rest). by destruct (last rest).
Qed.

(** X13: the flag follows the configuration.  After the watcher has seen
    a sequence of configurations, [subRepoPermsEnabled] answers true
    exactly when the last one has its experimental features present with
    sub-repo permissions switched on; with none seen, the flag keeps its
    value.  The watcher touches neither the store nor the trace. *)
Theorem X13_flag_follows_last_config (configs : list conf_Unified) w :
  storeState (snd (watchAll configs w)) = storeState w
  /\ trace (snd (watchAll configs w)) = trace w
  /\ fst (subRepoPermsEnabled (snd (watchAll configs w)))
     = match last configs with
       | Some c => enables c
       | None => fst (subRepoPermsEnabled w)
       end.
Proof.
  rewrite watchAll_run. simpl. split_and!; try done.
  destruct (last configs) as [c|]; [|done]. by destruct (enables c).
Qed.

(** X14: until the watcher has switched the feature on, nothing is
    enforced.  From the world at process start, after any sequence of
    configurations whose last one (if any) does not switch the feature on,
    [Permissions] and [ActorPermissions] return (Read, nil) for every user,
    actor and content without calling the store. *)
Theorem X14_nothing_enforced_while_off (configs : list conf_Unified) (st : S)
    s userID a content :
  match last configs with Some c => enables c = false | None => True end ->
  Permissions s userID content (snd (watchAll configs (initialWorld st)))
  = ((Perms.Read, None), initialWorld st)
  /\ ActorPermissions s a content (snd (watchAll configs (initialWorld st)))
     = ((Perms.Read, None), initialWorld st).
Proof.
  intros Hlast. rewrite watchAll_run. simpl.
  assert ((match last configs with
           | Some c => if enables c then 1 else 0
           | None => 0
           end) = 0) as ->.
  { destruct (last configs) as [c|]; [|done]. by rewrite Hlast. }
  split; [by apply Permissions_disabled|by apply ActorPermissions_disabled].
Qed.

Lemma ruleStage_no_error repoRules content :
  forallb compiles (PathIncludes repoRules ++ PathExcludes repoRules) = true ->
  (fst (@ruleStage GP repoRules content)).2 = None.
Proof.
  rewrite forallb_app. intros [Hi He]%andb_prop.
  destruct (compileAll_compiles _ [] Hi) as (gi & Hgi & _).
  destruct (compileAll_compiles _ [] He) as (ge & Hge & _).
  unfold ruleStage. rewrite Hgi, Hge.
  by repeat destruct (anyMatches _ _).
Qed.

Lemma Permissions_compiled_rules w getter userID content repoRules st :
  reachesRules w getter userID content repoRules st ->
  forallb compiles (PathIncludes repoRules ++ PathExcludes repoRules) = true ->
  fst (Permissions (mkClient (Some getter)) userID content w)
  = (ruleDecision repoRules content, None).
Proof.
  intros Hreach Hall.
  rewrite (Permissions_reachesRules _ _ _ _ _ _ Hreach). simpl.
  rewrite <- ruleStage_decision, <- (ruleStage_no_error repoRules content Hall).
  by destruct (fst (ruleStage repoRules content)).
Qed.

Lemma ruleStage_error_iff repoRules content :
  (fst (@ruleStage GP repoRules content)).2 = None
  <-> forallb compiles (PathIncludes repoRules ++ PathExcludes repoRules) = true.
Proof.
  split; [|apply ruleStage_no_error].
  rewrite forallb_app. unfold ruleStage.
  destruct (compileAll (PathIncludes repoRules) []) as [e|incs] eqn:Hinc;
    [done|].
  rewrite (compileAll_inr_compiles _ _ _ Hinc).
  destruct (compileAll (PathExcludes repoRules) []) as [e|excs] eqn:Hexc;
    [done|].
  by rewrite (compileAll_inr_compiles _ _ _ Hexc).
Qed.

(** X19: a call that reaches the rule stage fails exactly when some stored
    pattern of the repo does not compile, whether or not that pattern
    would be needed for the decision; when all compile, the call succeeds
    with the level given by the patterns. *)
Theorem X19_rule_stage_fails_iff_bad_pattern w getter userID content
    repoRules st :
  reachesRules w getter userID content repoRules st ->
  ((fst (Permissions (mkClient (Some getter)) userID content w)).2 = None
   <-> forallb compiles (PathIncludes repoRules ++ PathExcludes repoRules)
       = true)
  /\ (forallb compiles (PathIncludes repoRules ++ PathExcludes repoRules)
      = true ->
      fst (Permissions (mkClient (Some getter)) userID content w)
      = (ruleDecision repoRules content, None)).
Proof.
  intros Hreach. split.
  - rewrite (Permissions_reachesRules _ _ _ _ _ _ Hreach).
    apply ruleStage_error_iff.
  - intros Hall. apply (Permissions_compiled_rules _ _ _ _ _ _ Hreach Hall).
Qed.

End MoreProperties.

(** ** Rules written with the glob package of the program *)

Section GobwasRules.

Import gobwas.








Context {S : Type}.






End GobwasRules.

(** ** Grouping of annotations *)

Section Grouping.

Import squirrel.

Implicit Types (grouped : gmap string (gmap string (list annotation)))
  (a : annotation) (sym tag : string).

Lemma at_appendTo a grouped tag sym tag' :
  at_ (appendTo a grouped tag) sym tag'
  = at_ grouped sym tag'
    ++ (if String.eqb (symbol a) sym && String.eqb tag tag' then [a] else []).
Proof.
  unfold appendTo, at_.
  destruct (String.eqb_spec (symbol a) sym) as [<-|Hs]; simpl.
  - rewrite lookup_insert_eq. simpl.
    destruct (String.eqb_spec tag tag') as [<-|Ht].
    + by rewrite lookup_insert_eq.
    + rewrite lookup_insert_ne by done. by rewrite app_nil_r.
  - rewrite lookup_insert_ne by done. by rewrite app_nil_r.
Qed.

Lemma at_appendAll a tag' sym ts : forall grouped,
  at_ (fold_left (appendTo a) ts grouped) sym tag'
  = at_ grouped sym tag'
    ++ (if String.eqb (symbol a) sym
        then repeat a (count_occ string_dec ts tag') else []).
Proof.
  induction ts as [|t ts IH]; intros grouped; simpl.
  - destruct (String.eqb _ _); by rewrite app_nil_r.
  - rewrite IH, at_appendTo, <- app_assoc. f_equal.
    destruct (String.eqb (symbol a) sym); simpl; [|done].
    destruct (string_dec t tag') as [->|Hne].
    + by rewrite String.eqb_refl.
    + apply String.eqb_neq in Hne. by rewrite Hne.
Qed.

Lemma at_groupOne a grouped sym tag :
  at_ (groupOne grouped a) sym tag
  = at_ grouped sym tag
    ++ (if String.eqb (symbol a) sym
        then repeat a (count_occ string_dec (tags a) tag) else []).
Proof.
  unfold groupOne. rewrite at_appendAll. f_equal.
  destruct (grouped !! symbol a) as [m|] eqn:Hm; [done|].
  unfold at_. destruct (decide (symbol a = sym)) as [<-|Hne].
  - by rewrite lookup_insert_eq, Hm.
  - by rewrite lookup_insert_ne.
Qed.

Lemma at_groupAll sym tag annotations : forall grouped,
  at_ (fold_left groupOne annotations grouped) sym tag
  = at_ grouped sym tag ++ tagged annotations sym tag.
Proof.
  induction annotations as [|a rest IH]; intros grouped; simpl.
  - by rewrite app_nil_r.
  - by rewrite IH, at_groupOne, <- app_assoc.
Qed.

(** X17: what the grouping holds.  For every symbol and tag,
    [grouped[symbol][tag]] is the list of the annotations with that symbol
    that carry the tag, in the order of the input, an annotation that
    lists the tag several times standing as often; it is empty when there
    is none. *)
Theorem X17_group_entries annotations sym tag :
  at_ (groupBySymbolAndTag annotations) sym tag = tagged annotations sym tag.
Proof. unfold groupBySymbolAndTag. by rewrite at_groupAll. Qed.

Lemma at_grouping annotations sym tag :
  at_ (groupBySymbolAndTag annotations) sym tag = tagged annotations sym tag.
Proof. unfold groupBySymbolAndTag. by rewrite at_groupAll. Qed.

Lemma noEmpty_appendTo a grouped tag :
  noEmpty grouped -> noEmpty (appendTo a grouped tag).
Proof.
  intros Hne sym m tag'. unfold appendTo.
  destruct (decide (symbol a = sym)) as [<-|Hs].
  - rewrite lookup_insert_eq. intros [= <-].
    destruct (decide (tag = tag')) as [<-|Ht].
    + rewrite lookup_insert_eq. intros [= H]. by destruct (at_ _ _ _).
    + rewrite lookup_insert_ne by done.
      destruct (grouped !! symbol a) as [m|] eqn:Hm; simpl; [by eapply Hne|].
      by rewrite lookup_empty.
  - rewrite lookup_insert_ne by done. apply Hne.
Qed.

Lemma noEmpty_appendAll a ts : forall grouped,
  noEmpty grouped -> noEmpty (fold_left (appendTo a) ts grouped).
Proof.
  induction ts as [|t ts IH]; intros grouped Hne; [done|].
  simpl. by apply IH, noEmpty_appendTo.
Qed.

Lemma noEmpty_groupOne a grouped :
  noEmpty grouped -> noEmpty (groupOne grouped a).
Proof.
  intros Hne. unfold groupOne. apply noEmpty_appendAll.
  destruct (grouped !! symbol a) eqn:Hm; [done|].
  intros sym m tag. destruct (decide (symbol a = sym)) as [<-|Hs].
  - rewrite lookup_insert_eq. intros [= <-]. by rewrite lookup_empty.
  - rewrite lookup_insert_ne by done. apply Hne.
Qed.

Lemma noEmpty_groupAll annotations : forall grouped,
  noEmpty grouped -> noEmpty (fold_left groupOne annotations grouped).
Proof.
  induction annotations as [|a rest IH]; intros grouped Hne; [done|].
  simpl. by apply IH, noEmpty_groupOne.
Qed.

Lemma keys_appendTo a grouped tag sym :
  is_Some (appendTo a grouped tag !! sym)
  <-> is_Some (grouped !! sym) \/ symbol a = sym.
Proof.
  unfold appendTo. destruct (decide (symbol a = sym)) as [<-|Hs].
  - rewrite lookup_insert_eq. split; [by right|by eexists].
  - rewrite lookup_insert_ne by done. split; [by left|by intros [?|?]].
Qed.

Lemma keys_appendAll a sym ts : forall grouped,
  is_Some (grouped !! symbol a) ->
  is_Some (fold_left (appendTo a) ts grouped !! sym)
  <-> is_Some (grouped !! sym).
Proof.
  induction ts as [|t ts IH]; intros grouped Hin; [done|].
  simpl. rewrite IH, keys_appendTo.
  - split; [intros [?|<-]; done|by left].
  - apply keys_appendTo. by left.
Qed.

Lemma keys_groupOne a grouped sym :
  is_Some (groupOne grouped a !! sym)
  <-> is_Some (grouped !! sym) \/ symbol a = sym.
Proof.
  unfold groupOne. destruct (grouped !! symbol a) as [m|] eqn:Hm.
  - rewrite keys_appendAll by (by rewrite Hm).
    split; [by left|]. intros [?|<-]; [done|]. by rewrite Hm.
  - rewrite keys_appendAll by (by rewrite lookup_insert_eq).
    destruct (decide (symbol a = sym)) as [<-|Hs].
    + rewrite lookup_insert_eq. split; [by right|by eexists].
    + rewrite lookup_insert_ne by done. split; [by left|by intros [?|?]].
Qed.

Lemma keys_groupAll sym annotations : forall grouped,
  is_Some (fold_left groupOne annotations grouped !! sym)
  <-> is_Some (grouped !! sym) \/ exists a, In a annotations /\ symbol a = sym.
Proof.
  induction annotations as [|a rest IH]; intros grouped; simpl.
  - split; [by left|]. by intros [?|(? & [] & _)].
  - rewrite IH, keys_groupOne. split.
    + intros [[?|?]|(b & ? & ?)]; [by left|right; exists a; auto|
                                     right; exists b; auto].
    + intros [?|(b & [<-|?] & ?)]; [by left; left|by left; right|].
      right. by exists b.
Qed.

(** X18: the keys of the grouping.  A symbol is a key exactly when some
    annotation has it, also an annotation without tags.  Under a symbol, a
    tag is a key exactly when some annotation with the symbol carries it,
    and its entry is then the non-empty list of these annotations: no entry
    is ever an empty list, so that testing an entry against nil tells
    whether an annotation with the tag exists. *)
Theorem X18_group_keys annotations sym :
  (is_Some (groupBySymbolAndTag annotations !! sym)
   <-> exists a, In a annotations /\ symbol a = sym)
  /\ forall m tag,
      groupBySymbolAndTag annotations !! sym = Some m ->
      m !! tag = match tagged annotations sym tag with
                 | [] => None
                 | xs => Some xs
                 end.
Proof.
  split.
  - unfold groupBySymbolAndTag. rewrite keys_groupAll, lookup_empty.
    split; [intros [[? [=]]|?]; done|by right].
  - intros m tag Hm.
    pose proof (at_grouping annotations sym tag) as Hat.
    assert (noEmpty (groupBySymbolAndTag annotations)) as Hne.
    { apply noEmpty_groupAll. intros ? ? ?. by rewrite lookup_empty. }
    unfold at_ in Hat. rewrite Hm in Hat. simpl in Hat.
    specialize (Hne sym m tag Hm).
    destruct (m !! tag) as [xs|]; simpl in Hat; rewrite <- Hat; [|done].
    by destruct xs.
Qed.

End Grouping.

(** ** Subjects that leave the repo *)

Section Escape.







End Escape.

(** ** The subject of a check *)

Section Subject.

Context {GP : GlobPackage} {S : Type}.









End Subject.

(** ** The further properties at concrete inputs *)

Lemma X1_witness :
  Permissions (NewSubRepoPermsClient None) 7 secretFile (startWorld 1)
  = ((Perms.None, Some (errors_New "PermissionsGetter is nil")), startWorld 1).
Proof.
  apply (X1_nil_getter_is_an_error (startWorld 1) 7 secretFile).
  - reflexivity.
  - lia.
Defined.

Lemma X2_witness :
  Permissions (mkClient (Some supportFails)) 7 secretFile (startWorld 1)
  = ((Perms.None,
      Some (errors_Wrap (errors_New "store is down")
              "checking for sub-repo permissions support")),
     after (startWorld 1) tt [EvRepoSupported "r"]).
Proof.
  apply (X2_support_error_is_wrapped (startWorld 1) supportFails 7 secretFile
           true (errors_New "store is down") tt).
  - reflexivity.
  - lia.
  - reflexivity.
Defined.

Lemma X3_witness :
  Permissions (mkClient (Some rulesFail)) 7 secretFile (startWorld 1)
  = ((Perms.None,
      Some (errors_Wrap (errors_New "store is down") "getting permissions")),
     after (startWorld 1) tt [EvRepoSupported "r"; EvGetByUser 7]).
Proof.
  apply (X3_rules_error_is_wrapped (startWorld 1) rulesFail 7 secretFile
           tt ∅ (errors_New "store is down") tt).
  - reflexivity.
  - lia.
  - reflexivity.
  - reflexivity.
Defined.

Lemma X4_witness :
  (fst (Permissions (mkClient (Some (storeWith rootedRules))) 7 secretFile
          (startWorld 1))).1
  = ruleDecision rootedRules secretFile.
Proof.
  apply (X4_decision_by_patterns (startWorld 1) (storeWith rootedRules) 7
           secretFile rootedRules tt).
  apply reachesRules_example. reflexivity.
Defined.

Lemma X5_witness :
  (fst (Permissions (mkClient (Some (storeWith rootedRules))) 7 secretFile
          (startWorld 1))).1
  = (fst (Permissions (mkClient (Some (storeWith shuffledRules))) 7 secretFile
            (startWorld 1))).1.
Proof.
  apply (X5_pattern_order_is_irrelevant
           (startWorld 1) (storeWith rootedRules) 7 secretFile rootedRules tt
           (startWorld 1) (storeWith shuffledRules) 7 secretFile
           shuffledRules tt).
  - apply reachesRules_example. reflexivity.
  - apply reachesRules_example. reflexivity.
  - reflexivity.
  - intros p. simpl. tauto.
  - intros p. simpl. tauto.
Defined.

Lemma X6_witness :
  (fst (Permissions (mkClient (Some (storeWith allowAll))) 7 publicFile
          (startWorld 1))).1 = Perms.Read.
Proof.
  apply (X6_rules_are_monotone
           (startWorld 1) (storeWith rootedRules) 7 publicFile rootedRules tt
           (startWorld 1) (storeWith allowAll) 7 publicFile allowAll tt).
  - apply reachesRules_example. reflexivity.
  - apply reachesRules_example. reflexivity.
  - reflexivity.
  - intros p. simpl. tauto.
  - intros p. simpl. tauto.
  - vm_compute. reflexivity.
  - vm_compute. reflexivity.
Defined.

Lemma X7_witness :
  Permissions (mkClient (Some (storeWith onlyDocs))) 7 publicFile
    (startWorld 1)
  = ((Perms.None, None),
     after (startWorld 1) tt
       ([EvRepoSupported "r"; EvGetByUser 7]
        ++ map EvCompile (["r/docs/**"] ++ [])
        ++ map (fun g => EvMatch g (subject publicFile)) ([] ++ [underDocs]))).
Proof.
  apply (X7_no_match_denies (startWorld 1) (storeWith onlyDocs) 7 publicFile
           onlyDocs tt [underDocs] []).
  - apply reachesRules_example. reflexivity.
  - vm_compute. reflexivity.
  - vm_compute. reflexivity.
  - reflexivity.
  - vm_compute. reflexivity.
Defined.

Lemma X8_witness :
  Permissions (mkClient (Some (storeWith brokenRules))) 7 secretFile
    (startWorld 1)
  = ((Perms.None,
      Some (errors_Wrap (errors_New "unexpected end of input")
              "building include matcher")),
     after (startWorld 1) tt
       ([EvRepoSupported "r"; EvGetByUser 7] ++ map EvCompile (["**"] ++ ["["]))).
Proof.
  apply (X8_first_bad_include_ends_the_call (startWorld 1)
           (storeWith brokenRules) 7 secretFile brokenRules tt
           ["**"] "[" [] (errors_New "unexpected end of input")).
  - apply reachesRules_example. reflexivity.
  - reflexivity.
  - vm_compute. reflexivity.
  - vm_compute. reflexivity.
Defined.

Lemma X9_witness :
  Permissions (mkClient (Some (storeWith brokenExclude))) 7 publicFile
    (startWorld 1)
  = ((Perms.None,
      Some (errors_Wrap (errors_New "unexpected end of input")
              "building exclude matcher")),
     after (startWorld 1) tt
       ([EvRepoSupported "r"; EvGetByUser 7]
        ++ map EvCompile (["**"] ++ [] ++ ["["]))).
Proof.
  apply (X9_first_bad_exclude_ends_the_call (startWorld 1)
           (storeWith brokenExclude) 7 publicFile brokenExclude tt
           [] "[" ["r/secret/**"] (errors_New "unexpected end of input")).
  - apply reachesRules_example. reflexivity.
  - vm_compute. reflexivity.
  - reflexivity.
  - reflexivity.
  - vm_compute. reflexivity.
Defined.

Lemma X11_witness :
  ActorPermissions (mkClient (Some (storeWith rootedRules)))
    (mkActor 0 false false) publicFile (startWorld 1)
  = ((Perms.None, Some ErrUnauthenticated), startWorld 1).
Proof.
  apply (X11_unauthenticated_actor_is_rejected (startWorld 1)); reflexivity.
Defined.

Lemma X12_witness :
  ActorPermissions (mkClient (Some (storeWith rootedRules))) regularUser
    secretFile (startWorld 1)
  = Permissions (mkClient (Some (storeWith rootedRules))) 7 secretFile
      (startWorld 1)
  /\ CurrentUserPermissions regularUser
       (mkClient (Some (storeWith rootedRules))) secretFile (startWorld 1)
     = Permissions (mkClient (Some (storeWith rootedRules))) 7 secretFile
         (startWorld 1).
Proof.
  apply (X12_gate_is_transparent_for_users (startWorld 1)
           (mkClient (Some (storeWith rootedRules))) regularUser secretFile).
  - reflexivity.
  - left. reflexivity.
Defined.

Lemma X14_witness :
  Permissions (mkClient (Some (storeWith rootedRules))) 7 secretFile
    (snd (watchAll [mkUnified (Some (mkExperimentalFeatures true));
                    mkUnified None]
            (initialWorld tt)))
  = ((Perms.Read, None), initialWorld tt)
  /\ ActorPermissions (mkClient (Some (storeWith rootedRules)))
       internalAnonymous secretFile
       (snd (watchAll [mkUnified (Some (mkExperimentalFeatures true));
                       mkUnified None]
               (initialWorld tt)))
     = ((Perms.Read, None), initialWorld tt).
Proof.
  apply (X14_nothing_enforced_while_off
           [mkUnified (Some (mkExperimentalFeatures true)); mkUnified None] tt
           (mkClient (Some (storeWith rootedRules))) 7 internalAnonymous
           secretFile).
  reflexivity.
Defined.



Lemma X19_witness :
  (fst (Permissions (mkClient (Some (storeWith brokenExclude))) 7 publicFile
          (startWorld 1))).2 = None
  <-> forallb compiles (["**"] ++ ["["; "r/secret/**"]) = true.
Proof.
  apply (X19_rule_stage_fails_iff_bad_pattern (startWorld 1)
           (storeWith brokenExclude) 7 publicFile brokenExclude tt).
  apply reachesRules_example. reflexivity.
Defined.


